(** * RSA demo (rsa.py): a shallow embedding and its verified properties

    The Python program works on arbitrary-precision integers, which are
    modelled by [Z]: Python's [%] and [//] are floor operations whose
    remainder takes the sign of the divisor, exactly [Z.modulo] and
    [Z.div]; [&] and [>>] are [Z.land] and [Z.shiftr].  Exceptions are
    values of [result]; the loops that always terminate are defined by
    well-founded recursion, the loops that can spin forever take fuel;
    the random module is an explicit tape that is threaded through the
    calls. *)

From Equations Require Import Equations.
From Stdlib Require Import ZArith Zpow_facts Lia Bool List.
From Stdlib Require Import Ascii String.
From Stdlib Require Import Zmod.ZmodInv.
Import ListNotations.

Local Open Scope Z_scope.

(* ===================================================================== *)
(** ** Python values, exceptions and builtins                            *)
(* ===================================================================== *)

(** The exceptions the program can raise: [ValueError] (raised by
    [mod_inv], by [randint] on an empty range and by the builtin [pow])
    and [ZeroDivisionError] (raised by [%] and [//]). *)
Inductive exn : Set :=
| ValueError
| ZeroDivisionError.

Inductive result (A : Type) : Type :=
| Ok (a : A)
| Raised (e : exn).
Arguments Ok {A} a.
Arguments Raised {A} e.

Definition rbind {A B : Type} (r : result A) (k : A -> result B) : result B :=
  match r with
  | Ok a => k a
  | Raised e => Raised e
  end.

Notation "'let?' x ':=' r 'in' k" := (rbind r (fun x => k))
  (at level 10, x name, r at level 100, k at level 200).

(** [a % b] *)
Definition py_mod (a b : Z) : result Z :=
  if b =? 0 then Raised ZeroDivisionError else Ok (a mod b).

(** The builtin [pow(a, e, n)] of Python 3.5 (the version the file header
    names): [a ** e % n] computed by repeated squaring; a zero modulus or a
    negative exponent is a [ValueError]. *)
Definition py_pow3 (a e n : Z) : result Z :=
  if n =? 0 then Raised ValueError
  else if e <? 0 then Raised ValueError
  else Ok (Zpow_mod a e n).

(** Characters are those of Stdlib strings (code points below 256). *)
Definition ord (c : ascii) : Z := Z.of_N (N_of_ascii c).

(** [chr(i)]: a [ValueError] below 0; code points from 256 on are outside
    the alphabet of this model and are reported the same way. *)
Definition chr (i : Z) : result ascii :=
  if (0 <=? i) && (i <? 256) then Ok (ascii_of_N (Z.to_N i))
  else Raised ValueError.

(** [str.lower()] on one character: the upper-case letters A-Z and those of
    Latin-1 move up by 32, every other character stays. *)
Definition lower_char (c : ascii) : ascii :=
  let i := ord c in
  if ((65 <=? i) && (i <=? 90)) || ((192 <=? i) && (i <=? 214))
     || ((216 <=? i) && (i <=? 222))
  then ascii_of_N (Z.to_N (i + 32)) else c.

Definition lower (s : string) : string :=
  string_of_list_ascii (map lower_char (list_ascii_of_string s)).

(* ===================================================================== *)
(** ** The codec: [decode] and [encode]                                  *)
(* ===================================================================== *)

(** What [decode] returns: the list [[0]] on input 0, a string otherwise. *)
Inductive decoded : Type :=
| DList (l : list Z)
| DStr (s : string).

(** The loop [while n: chars.append(chr(int(n % b) + 97)); n //= b].
    [None] means that the fuel ran out before the loop ended. *)
Fixpoint decode_loop (fuel : nat) (n b : Z) (chars : list ascii)
  : option (result (list ascii)) :=
  match fuel with
  | O => None
  | S fuel' =>
      if n =? 0 then Some (Ok chars)
      else
        match py_mod n b with
        | Raised e => Some (Raised e)
        | Ok r =>
            match chr (r + 97) with
            | Raised e => Some (Raised e)
            | Ok c => decode_loop fuel' (n / b) b (chars ++ [c])
            end
        end
  end.

Definition decode (fuel : nat) (n b : Z) : option (result decoded) :=
  if n =? 0 then Some (Ok (DList [0]))
  else
    match decode_loop fuel n b [] with
    | None => None
    | Some (Raised e) => Some (Raised e)
    | Some (Ok chars) => Some (Ok (DStr (string_of_list_ascii (rev chars))))
    end.

(** The second loop of [encode]: its state is [(m_num, m_len)]. *)
Fixpoint encode_loop (m_list : list Z) (b m_num m_len : Z) : Z :=
  match m_list with
  | [] => m_num
  | i :: rest => encode_loop rest b (m_num + i * b ^ m_len) (m_len - 1)
  end.

Definition encode (message : string) (b : Z) : Z :=
  let m_list := list_ascii_of_string (lower message) in
  let m_list := map (fun c => ord c - 97) m_list in
  let m_num := 0 in
  let m_len := Z.of_nat (List.length m_list) - 1 in
  encode_loop m_list b m_num m_len.

(* ===================================================================== *)
(** ** Extended Euclid and the modular inverse                           *)
(* ===================================================================== *)

(** The loop of [extended_gcd]; it ends because the remainder shrinks in
    absolute value.  The state is
    [(last_remainder, remainder, x, last_x, y, last_y)] and the result the
    final [(last_remainder, last_x, last_y)]. *)
Equations? extended_gcd_loop (last_remainder remainder x last_x y last_y : Z)
  : Z * Z * Z by wf (Z.to_nat (Z.abs remainder)) lt :=
  extended_gcd_loop last_remainder remainder x last_x y last_y
    with Z.eq_dec remainder 0 => {
    | left _ := (last_remainder, last_x, last_y);
    | right _ :=
        let quotient := last_remainder / remainder in
        extended_gcd_loop remainder (last_remainder mod remainder)
          (last_x - quotient * x) x (last_y - quotient * y) y }.
Proof.
  destruct (Z_lt_le_dec 0 remainder) as [Hpos | Hneg].
  - pose proof (Z.mod_pos_bound last_remainder remainder Hpos). lia.
  - assert (Hlt : remainder < 0) by lia.
    pose proof (Z.mod_neg_bound last_remainder remainder Hlt). lia.
Qed.

Definition extended_gcd (a0 b0 : Z) : Z * Z * Z :=
  let '(last_remainder, last_x, last_y) :=
    extended_gcd_loop (Z.abs a0) (Z.abs b0) 0 1 1 0 in
  (last_remainder,
   last_x * (if a0 <? 0 then -1 else 1),
   last_y * (if b0 <? 0 then -1 else 1)).

Definition mod_inv (a m : Z) : result Z :=
  let '(g, x, _) := extended_gcd a m in
  if negb (g =? 1) then Raised ValueError
  else py_mod x m.

(* ===================================================================== *)
(** ** Modular exponentiation (Stinson, Algorithm 5.5)                   *)
(* ===================================================================== *)

(** The loop [while ex > 0] with state [(b, ex, res)]; it ends because
    every round makes [ex] smaller. *)
Equations? mod_exp_loop (b ex res modulo : Z) : result Z
  by wf (Z.to_nat ex) lt :=
  mod_exp_loop b ex res modulo with Z_lt_dec 0 ex => {
    | right _ := Ok res;
    | left _ with Z.land ex 1 =? 0 => {
        | true with py_mod (b * b) modulo => {
            | Raised e := Raised e;
            | Ok b' := mod_exp_loop b' (ex / 2) res modulo };
        | false with py_mod (b * res) modulo => {
            | Raised e := Raised e;
            | Ok res' := mod_exp_loop b (ex - 1) res' modulo } } }.
Proof.
  - apply Z2Nat.inj_lt; try lia.
    + apply Z.div_pos; lia.
    + apply Z.div_lt; lia.
  - lia.
Qed.

Definition mod_exp_55 (message exponent modulo : Z) : result Z :=
  if exponent <=? 0 then Ok 1
  else
    let b := message in
    let ex := exponent in
    let res := 1 in
    mod_exp_loop b ex res modulo.

(** [rsa(n, e, message)]: encryption and decryption alike. *)
Definition rsa (n e message : Z) : result Z :=
  mod_exp_55 message e n.

(* ===================================================================== *)
(** ** The random source                                                 *)
(* ===================================================================== *)

(** The state of the [random] module: a tape of raw draws and the position
    of the next one.  Every tape is a possible run of the generator. *)
Record rng : Type := mkRng { tape : nat -> Z; cursor : nat }.

Definition skip (k : nat) (g : rng) : rng :=
  mkRng (tape g) (cursor g + k).

(** Computations that draw random numbers and may raise: [None] is a loop
    that ran out of fuel, otherwise the outcome comes with the state of the
    generator after the draws made so far. *)
Definition M (A : Type) : Type := rng -> option (result A * rng).

Definition ret {A : Type} (a : A) : M A :=
  fun g => Some (Ok a, g).

Definition bind {A B : Type} (m : M A) (k : A -> M B) : M B :=
  fun g =>
    match m g with
    | None => None
    | Some (Raised e, g') => Some (Raised e, g')
    | Some (Ok a, g') => k a g'
    end.

Definition lift {A : Type} (r : result A) : M A :=
  fun g => Some (r, g).

Declare Scope rand_scope.
Delimit Scope rand_scope with rand.
Notation "x <- m ;; k" := (bind m (fun x => k))
  (at level 61, m at next level, right associativity) : rand_scope.

(** [getrandbits(k)]: the next raw draw, cut to [k] bits. *)
Definition getrandbits (k : Z) : M Z :=
  fun g => Some (Ok (tape g (cursor g) mod 2 ^ k), skip 1 g).

(** [randint(lo, hi)]: a [ValueError] on an empty range; otherwise the next
    raw draw folded into [lo..hi], a draw already in the range being
    returned as it is. *)
Definition randint (lo hi : Z) : M Z :=
  fun g =>
    if hi <? lo then Some (Raised ValueError, g)
    else Some (Ok (lo + (tape g (cursor g) - lo) mod (hi - lo + 1)), skip 1 g).

(* ===================================================================== *)
(** ** Miller-Rabin, prime generation and key generation                 *)
(* ===================================================================== *)

(** The [for j in range(k_check - 1)] loop of [check] and its final
    [return x == num - 1]. *)
Fixpoint check_loop (j : nat) (x num : Z) : result bool :=
  match j with
  | O => Ok (x =? num - 1)
  | S j' =>
      if x =? num - 1 then Ok true
      else let? x' := py_pow3 x 2 num in check_loop j' x' num
  end.

Definition check (a_check k_check num_sub num : Z) : result bool :=
  let? x := py_pow3 a_check num_sub num in
  if x =? 1 then Ok true
  else check_loop (Z.to_nat (k_check - 1)) x num.

(** [while n_sub % 2 == 0: n_sub >>= 1; k += 1], which spins forever on
    [n_sub = 0]. *)
Fixpoint split_loop (fuel : nat) (n_sub k : Z) : option (Z * Z) :=
  match fuel with
  | O => None
  | S fuel' =>
      if n_sub mod 2 =? 0 then split_loop fuel' (Z.shiftr n_sub 1) (k + 1)
      else Some (n_sub, k)
  end.

(** [for i in range(t)]: draw a witness, stop with [False] when it fails. *)
Fixpoint rounds (i : nat) (n k n_sub : Z) : M bool :=
  match i with
  | O => ret true
  | S i' =>
      (a <- randint 2 (n - 1) ;;
       c <- lift (check a k n_sub n) ;;
       if negb c then ret false else rounds i' n k n_sub)%rand
  end.

Definition miller_rabin (fuel : nat) (n t : Z) : M bool :=
  fun g =>
    let k := 0 in
    let n_sub := n - 1 in
    match split_loop fuel n_sub k with
    | None => None
    | Some (n_sub, k) => rounds (Z.to_nat t) n k n_sub g
    end.

(** What [get_prime] returns: [False], or the number that passed. *)
Inductive candidate : Type :=
| PyFalse
| PyInt (n : Z).

(** [not p] *)
Definition py_not (p : candidate) : bool :=
  match p with
  | PyFalse => true
  | PyInt n => n =? 0
  end.

(** The value of [p] in arithmetic ([False] counts as 0). *)
Definition int_of (p : candidate) : Z :=
  match p with
  | PyFalse => 0
  | PyInt n => n
  end.

Definition get_prime (fuel : nat) : M candidate :=
  (n <- getrandbits 512 ;;
   let n := if Z.land n 1 =? 0 then n + 1 else n in
   r <- miller_rabin fuel n 10 ;;
   if negb r then ret PyFalse else ret (PyInt n))%rand.

(** [while not p: p = get_prime()] *)
Fixpoint retry_prime (rounds_left : nat) (fuel : nat) (p : candidate)
  : M candidate :=
  match rounds_left with
  | O => fun _ => None
  | S rounds_left' =>
      if py_not p
      then (p' <- get_prime fuel ;; retry_prime rounds_left' fuel p')%rand
      else ret p
  end.

(** Lines 199-204 of [key_gen]: the two primes. *)
Definition key_gen_primes (fuel : nat) : M (candidate * candidate) :=
  (p <- get_prime fuel ;;
   q <- get_prime fuel ;;
   p <- retry_prime fuel fuel p ;;
   q <- retry_prime fuel fuel q ;;
   ret (p, q))%rand.

(** Lines 205-221 of [key_gen]: the keys from the two primes. *)
Definition key_gen_keys (b : Z) (pq : candidate * candidate)
  : result ((Z * Z) * (Z * Z * Z)) :=
  let '(p, q) := pq in
  let n := int_of p * int_of q in
  let public_key := (n, b) in
  let phi := (int_of p - 1) * (int_of q - 1) in
  let? a := mod_inv b phi in
  let private_key := (int_of p, int_of q, a) in
  Ok (public_key, private_key).

Definition key_gen (fuel : nat) : M ((Z * Z) * (Z * Z * Z)) :=
  let b := 65537 in
  (pq <- key_gen_primes fuel ;;
   lift (key_gen_keys b pq))%rand.

(* ===================================================================== *)
(** ** The loops of [main]                                               *)
(* ===================================================================== *)

(** [c.isalpha()] on the characters of the model: the letters of ASCII and
    of Latin-1. *)
Definition isalpha (c : ascii) : bool :=
  let i := ord c in
  ((65 <=? i) && (i <=? 90)) || ((97 <=? i) && (i <=? 122))
  || (i =? 170) || (i =? 181) || (i =? 186)
  || ((192 <=? i) && (i <=? 214)) || ((216 <=? i) && (i <=? 246))
  || ((248 <=? i) && (i <=? 255)).

(** [''.join([i for i in line if i.isalpha()])] *)
Definition letters_of (line : string) : string :=
  string_of_list_ascii (filter isalpha (list_ascii_of_string line)).

(** Choice 2, the body of the loop over the message file (lines 331-334):
    the number computed for one line; its decimal rendering by [str] and
    the file it is written to are left out. *)
Definition encrypt_line (n b : Z) (line : string) : result Z :=
  let l := letters_of line in
  rsa n b (encode l 26).

(** Choice 3, the body of the loop over the ciphertext file (lines
    366-368), on the integer that [int(line)] read: the value handed to
    [str]. *)
Definition decrypt_line (fuel : nat) (p q a : Z) (c : Z)
  : option (result decoded) :=
  match rsa (p * q) a c with
  | Raised e => Some (Raised e)
  | Ok m => decode fuel m 26
  end.

(* ===================================================================== *)
(** ** Vocabulary of the statements                                      *)
(* ===================================================================== *)

(** A lowercase letter, and a string made of them. *)
Definition is_lower (c : ascii) : Prop := 97 <= ord c <= 122.

Definition lowercase (s : string) : Prop :=
  Forall is_lower (list_ascii_of_string s).

Definition starts_with_a (s : string) : Prop :=
  exists rest, s = String "a" rest.

(** [s] without its leading letters [a]. *)
Fixpoint strip_a (s : string) : string :=
  match s with
  | String c rest => if Ascii.eqb c "a" then strip_a rest else s
  | EmptyString => s
  end.

(** The digit a letter stands for, and the value of a list of digits in
    base [b], least significant digit first. *)
Definition digit (c : ascii) : Z := ord c - 97.

Fixpoint lsb_value (b : Z) (ds : list Z) : Z :=
  match ds with
  | [] => 0
  | d :: rest => d + b * lsb_value b rest
  end.

(** Every witness of [2 .. n-1] passes [check]: a test that runs. *)
Definition passes (n k n_sub : Z) (a : Z) : bool :=
  match check a k n_sub n with
  | Ok true => true
  | _ => false
  end.

Definition all_witnesses_pass (n k n_sub : Z) : bool :=
  forallb (passes n k n_sub) (map Z.of_nat (seq 2 (Z.to_nat n - 2))).

(** A run of the generator in which 65537 divides [phi]: the first draw is
    the prime 917519 = 14 * 65537 + 1, the twelfth is the prime 3, and all
    the witnesses drawn are 2. *)
Definition unlucky_tape (i : nat) : Z :=
  if Nat.eqb i 0 then 917519 else if Nat.eqb i 11 then 3 else 2.

(** A run that yields the primes 61 and 53 of the textbook example. *)
Definition textbook_tape (i : nat) : Z :=
  if Nat.eqb i 0 then 61 else if Nat.eqb i 11 then 53 else 2.

(** What [get_prime] may hand over: an odd number from 3 up to
    [2 ^ 512 - 1], or [False]. *)
Definition good_candidate (n : Z) : Prop :=
  3 <= n < 2 ^ 512 /\ n mod 2 = 1.

Definition candidate_ok (c : candidate) : Prop :=
  c = PyFalse \/ exists n, c = PyInt n /\ good_candidate n.

(* ===================================================================== *)
(** ** Builtins                                                          *)
(* ===================================================================== *)

Lemma py_mod_ok a b : b <> 0 -> py_mod a b = Ok (a mod b).
Proof.
  intros Hb. unfold py_mod.
  destruct (Z.eqb_spec b 0); [contradiction | reflexivity].
Qed.

Lemma py_pow3_spec a e n :
  0 <= e -> n <> 0 -> py_pow3 a e n = Ok (a ^ e mod n).
Proof.
  intros He Hn. unfold py_pow3.
  destruct (Z.eqb_spec n 0); [contradiction |].
  destruct (Z.ltb_spec e 0); [lia |].
  rewrite Zpow_mod_correct by assumption. reflexivity.
Qed.

Lemma land_1_mod2 ex : Z.land ex 1 = ex mod 2.
Proof. change 1 with (Z.ones 1). rewrite Z.land_ones by lia. reflexivity. Qed.

Lemma ord_range c : 0 <= ord c < 256.
Proof. unfold ord. pose proof (N_ascii_bounded c). lia. Qed.

Lemma chr_ord c : chr (ord c) = Ok c.
Proof.
  unfold chr. pose proof (ord_range c) as H.
  destruct (Z.leb_spec 0 (ord c)); [| lia].
  destruct (Z.ltb_spec (ord c) 256); [| lia]. simpl.
  unfold ord. rewrite N2Z.id, ascii_N_embedding. reflexivity.
Qed.

Lemma ord_inj c1 c2 : ord c1 = ord c2 -> c1 = c2.
Proof.
  intros H. pose proof (chr_ord c1) as H1. rewrite H, chr_ord in H1.
  congruence.
Qed.

Lemma ord_chr i c : chr i = Ok c -> ord c = i.
Proof.
  unfold chr. destruct (Z.leb_spec 0 i); simpl; [| discriminate].
  destruct (Z.ltb_spec i 256); [| discriminate].
  intros [= <-]. unfold ord. rewrite N_ascii_embedding; lia.
Qed.

Lemma lower_char_lower c : is_lower c -> lower_char c = c.
Proof.
  unfold is_lower, lower_char. intros H.
  destruct (Z.leb_spec 65 (ord c)), (Z.leb_spec (ord c) 90),
    (Z.leb_spec 192 (ord c)), (Z.leb_spec (ord c) 214),
    (Z.leb_spec 216 (ord c)), (Z.leb_spec (ord c) 222);
    simpl; try reflexivity; lia.
Qed.

Lemma lower_lowercase s : lowercase s -> lower s = s.
Proof.
  unfold lowercase, lower. intros H.
  rewrite <- (string_of_list_ascii_of_string s) at 2. f_equal.
  induction H as [| c l Hc Hl IH]; simpl; [reflexivity |].
  rewrite lower_char_lower, IH by assumption. reflexivity.
Qed.

(* ===================================================================== *)
(** ** Modular exponentiation                                            *)
(* ===================================================================== *)

(** The loop invariant of Algorithm 5.5: [b ^ ex * res] stays the same
    modulo [modulo]. *)
Lemma mod_exp_loop_spec ex :
  0 <= ex -> forall b res modulo, modulo <> 0 ->
  mod_exp_loop b ex res modulo =
  Ok (if ex =? 0 then res else (b ^ ex * res) mod modulo).
Proof.
  intros Hex. pattern ex. apply Zlt_0_ind; [| exact Hex].
  clear ex Hex. intros ex IH Hex b res modulo Hm.
  rewrite mod_exp_loop_equation_1.
  destruct (Z_lt_dec 0 ex) as [Hpos | Hnpos]; simpl.
  - destruct (Z.eqb_spec ex 0) as [-> | _]; [lia |].
    destruct (Z.eqb_spec (Z.land ex 1) 0) as [Heven | Hodd]; simpl.
    + rewrite py_mod_ok by assumption. simpl.
      rewrite land_1_mod2 in Heven.
      assert (Hex2 : ex = 2 * (ex / 2)) by (pose proof (Z.div_mod ex 2); lia).
      rewrite IH by lia.
      destruct (Z.eqb_spec (ex / 2) 0) as [H0 | _]; [lia |].
      f_equal.
      rewrite Z.mul_mod, Z.mod_pow_l, <- Z.mul_mod by assumption.
      rewrite Hex2 at 2. rewrite Z.pow_mul_r by lia.
      replace (b ^ 2) with (b * b) by ring. reflexivity.
    + rewrite py_mod_ok by assumption. simpl.
      rewrite IH by lia.
      destruct (Z.eqb_spec (ex - 1) 0) as [H0 | Hn0].
      * replace ex with 1 by lia. rewrite Z.pow_1_r. reflexivity.
      * f_equal. rewrite Z.mul_mod_idemp_r by assumption.
        replace ex with (Z.succ (ex - 1)) at 2 by lia.
        rewrite Z.pow_succ_r by lia. f_equal. ring.
  - destruct (Z.eqb_spec ex 0) as [_ | Hn]; [reflexivity | lia].
Qed.

Lemma mod_exp_55_pos b ex m :
  0 < ex -> m <> 0 -> mod_exp_55 b ex m = Ok (b ^ ex mod m).
Proof.
  intros Hex Hm. unfold mod_exp_55.
  destruct (Z.leb_spec ex 0); [lia |].
  rewrite mod_exp_loop_spec by (lia || assumption).
  destruct (Z.eqb_spec ex 0); [lia |]. rewrite Z.mul_1_r. reflexivity.
Qed.

Lemma mod_exp_55_nonpos b ex m : ex <= 0 -> mod_exp_55 b ex m = Ok 1.
Proof.
  intros Hex. unfold mod_exp_55.
  destruct (Z.leb_spec ex 0); [reflexivity | lia].
Qed.

(** With a zero modulus and a positive exponent the first [%] raises. *)
Lemma mod_exp_55_zero_modulus b ex :
  0 < ex -> mod_exp_55 b ex 0 = Raised ZeroDivisionError.
Proof.
  intros Hex. unfold mod_exp_55. destruct (Z.leb_spec ex 0); [lia |].
  rewrite mod_exp_loop_equation_1.
  destruct (Z_lt_dec 0 ex); [| lia]. simpl.
  destruct (Z.land ex 1 =? 0); reflexivity.
Qed.

(** C2, as stated, fails where exponent 0 meets modulus 1: the guard
    [exponent <= 0] returns 1 before any reduction, while [5 ^ 0 mod 1] is
    0, so the result is neither [b ^ ex mod m] nor the 0 promised for
    modulus 1. *)
Lemma mod_exp_55_exponent_0_modulus_1 :
  (0 <= 0 /\ 0 < 1)
  /\ mod_exp_55 5 0 1 = Ok 1
  /\ mod_exp_55 5 0 1 <> Ok (5 ^ 0 mod 1)
  /\ mod_exp_55 5 0 1 <> Ok 0.
Proof.
  split; [lia |]. split; [reflexivity |]. split; discriminate.
Qed.

(** C2 (amended): for every base [b], exponent [ex >= 0] and modulus
    [m > 0], [mod_exp_55 b ex m] is [b ^ ex mod m] as soon as [ex > 0] or
    [m > 1]; exponent 0 returns 1 for every base and every modulus
    [m > 0], modulus 1 included; modulus 1 with an exponent [ex > 0]
    returns 0. *)
Theorem mod_exp_55_correct (b ex m : Z) :
  0 <= ex -> 0 < m ->
  mod_exp_55 b 0 m = Ok 1
  /\ (0 < ex \/ 1 < m -> mod_exp_55 b ex m = Ok (b ^ ex mod m))
  /\ (0 < ex -> mod_exp_55 b ex 1 = Ok 0).
Proof.
  intros Hex Hm. split; [reflexivity |]. split.
  - intros Hcase. destruct (Z.eq_dec ex 0) as [-> | Hnz].
    + assert (Hm1 : 1 < m) by lia.
      rewrite Z.pow_0_r, Z.mod_1_l by assumption. reflexivity.
    + apply mod_exp_55_pos; lia.
  - intros Hpos. rewrite mod_exp_55_pos by lia.
    rewrite Z.mod_1_r. reflexivity.
Qed.

Lemma mod_exp_55_correct_witness :
  mod_exp_55 65 0 3233 = Ok 1
  /\ (0 < 17 \/ 1 < 3233 -> mod_exp_55 65 17 3233 = Ok (65 ^ 17 mod 3233))
  /\ (0 < 17 -> mod_exp_55 65 17 1 = Ok 0).
Proof.
  apply (mod_exp_55_correct 65 17 3233); lia.
Defined.

(** The textbook vector: 65 ^ 17 mod 3233 = 2790 and back. *)
Example mod_exp_55_textbook :
  mod_exp_55 65 17 3233 = Ok 2790 /\ mod_exp_55 2790 2753 3233 = Ok 65.
Proof. split; vm_compute; reflexivity. Qed.

(** C6, as stated, fails: a negative exponent is caught by the guard
    [exponent <= 0] and the call returns 1. *)
Lemma mod_exp_55_negative_exponent_returns :
  (-1 < 0 /\ 0 < 5) /\ mod_exp_55 2 (-1) 5 = Ok 1.
Proof. split; [lia | reflexivity]. Qed.

(** C6 (amended): for every base and every modulus, a call of
    [mod_exp_55] with a negative exponent returns 1; no error is raised. *)
Theorem mod_exp_55_negative_exponent (b ex m : Z) :
  ex < 0 -> mod_exp_55 b ex m = Ok 1.
Proof.
  intros Hex. apply mod_exp_55_nonpos. lia.
Qed.

Lemma mod_exp_55_negative_exponent_witness : mod_exp_55 7 (-3) 11 = Ok 1.
Proof.
  apply (mod_exp_55_negative_exponent 7 (-3) 11). lia.
Defined.

(* ===================================================================== *)
(** ** RSA                                                               *)
(* ===================================================================== *)

(** C5, as stated, fails: [rsa] has no range check, a message equal to the
    modulus (or above it) is reduced like any other. *)
Lemma rsa_accepts_large_message :
  (3233 >= 3233 /\ rsa 3233 17 3233 = Ok 0)
  /\ (3298 >= 3233 /\ rsa 3233 17 3298 = Ok 2790).
Proof. repeat split; try lia; vm_compute; reflexivity. Qed.

(** C5 (amended): for every public key [(n, e)] with [n > 0] and every
    message integer [m], [rsa n e m] makes no range check and never
    fails: it returns [mod_exp_55 m e n], which is [m ^ e mod n] when
    [e > 0], for [m >= n] as for [0 <= m < n]. *)
Theorem rsa_no_range_check (n e m : Z) :
  0 < n ->
  rsa n e m = mod_exp_55 m e n
  /\ exists c, rsa n e m = Ok c /\ (0 < e -> c = m ^ e mod n).
Proof.
  intros Hn. split; [reflexivity |]. unfold rsa.
  destruct (Z_lt_le_dec 0 e) as [Hpos | Hneg].
  - exists (m ^ e mod n). split; [apply mod_exp_55_pos; lia | reflexivity].
  - exists 1. split; [apply mod_exp_55_nonpos; exact Hneg | lia].
Qed.

Lemma rsa_no_range_check_witness :
  rsa 3233 17 5000 = mod_exp_55 5000 17 3233
  /\ exists c, rsa 3233 17 5000 = Ok c /\ (0 < 17 -> c = 5000 ^ 17 mod 3233).
Proof.
  apply (rsa_no_range_check 3233 17 5000). lia.
Defined.

(** Trial division, to name concrete primes. *)
Lemma trial_division_prime p :
  1 < p ->
  forallb (fun n => negb (p mod Z.of_nat n =? 0)) (seq 2 (Z.to_nat p - 2)) = true ->
  Z.prime p.
Proof.
  intros Hp Hall. split; [exact Hp |]. intros n Hn Hdiv.
  rewrite forallb_forall in Hall.
  specialize (Hall (Z.to_nat n)).
  rewrite Z2Nat.id in Hall by lia.
  assert (Hin : In (Z.to_nat n) (seq 2 (Z.to_nat p - 2))) by (apply in_seq; lia).
  apply Hall in Hin. apply Z.mod_divide in Hdiv; [| lia].
  rewrite Hdiv in Hin. discriminate.
Qed.

(** Fermat's little theorem in the form RSA uses it. *)
Lemma pow_cycle_prime p m j :
  Z.prime p -> 0 <= j -> m ^ (1 + j * (p - 1)) mod p = m mod p.
Proof.
  intros Hp Hj. pose proof (Z.prime_ge_2 p Hp) as Hp2.
  rewrite Z.pow_add_r, Z.pow_1_r by nia.
  destruct (Z.eq_dec (m mod p) 0) as [Hz | Hnz].
  - rewrite Z.mul_mod, Hz by lia. rewrite Z.mul_0_l. apply Z.mod_0_l. lia.
  - assert (HX : m ^ (j * (p - 1)) mod p = 1).
    { rewrite Z.mul_comm, Z.pow_mul_r by lia.
      rewrite <- Z.mod_pow_l, (Z.fermat_nz p m Hp Hnz).
      rewrite Z.pow_1_l by lia. apply Z.mod_1_l. lia. }
    rewrite <- Z.mul_mod_idemp_r, HX, Z.mul_1_r by lia. reflexivity.
Qed.

Lemma divide_coprime_mul a b c :
  Z.coprime a b -> (a | c) -> (b | c) -> (a * b | c).
Proof.
  intros Hab [k Hk] Hb. subst c.
  assert (Hbk : (b | k)).
  { apply Z.gauss with a; [| rewrite Z.gcd_comm; exact Hab].
    rewrite Z.mul_comm. exact Hb. }
  destruct Hbk as [k' ->]. exists k'. ring.
Qed.

(** The arithmetic heart of RSA: [e * d] acts as 1 in the exponent. *)
Lemma rsa_exponents p q e d m :
  Z.prime p -> Z.prime q -> p <> q -> 0 <= e -> 0 <= d ->
  (e * d) mod ((p - 1) * (q - 1)) = 1 ->
  m ^ (e * d) mod (p * q) = m mod (p * q).
Proof.
  intros Hp Hq Hpq He Hd Hed.
  pose proof (Z.prime_ge_2 p Hp) as Hp2.
  pose proof (Z.prime_ge_2 q Hq) as Hq2.
  set (phi := (p - 1) * (q - 1)) in *.
  assert (Hphi : 0 < phi) by (unfold phi; nia).
  pose proof (Z.div_mod (e * d) phi ltac:(lia)) as Hdm. rewrite Hed in Hdm.
  assert (Hk : 0 <= e * d / phi) by (apply Z.div_pos; nia).
  set (k := e * d / phi) in *.
  assert (Hdivp : (p | m ^ (e * d) - m)).
  { apply Z.mod_divide; [lia |]. rewrite Zminus_mod.
    replace (e * d) with (1 + (k * (q - 1)) * (p - 1))
      by (unfold phi in Hdm; lia).
    rewrite pow_cycle_prime by (assumption || nia).
    rewrite Z.sub_diag. apply Z.mod_0_l. lia. }
  assert (Hdivq : (q | m ^ (e * d) - m)).
  { apply Z.mod_divide; [lia |]. rewrite Zminus_mod.
    replace (e * d) with (1 + (k * (p - 1)) * (q - 1))
      by (unfold phi in Hdm; lia).
    rewrite pow_cycle_prime by (assumption || nia).
    rewrite Z.sub_diag. apply Z.mod_0_l. lia. }
  assert (Hrel : Z.coprime p q).
  { apply Z.coprime_prime_l; [assumption |].
    intros Hdiv. apply Hpq. apply Z.divide_prime_prime; assumption. }
  pose proof (divide_coprime_mul p q _ Hrel Hdivp Hdivq) as [c Hc].
  replace (m ^ (e * d)) with (m + c * (p * q)) by lia.
  apply Z.mod_add. nia.
Qed.

(** In a key pair neither exponent is 0. *)
Lemma rsa_exponents_positive p q e d :
  Z.prime p -> Z.prime q -> p <> q -> 0 <= e -> 0 <= d ->
  (e * d) mod ((p - 1) * (q - 1)) = 1 -> 0 < e /\ 0 < d.
Proof.
  intros Hp Hq Hpq He Hd Hed.
  pose proof (Z.prime_ge_2 p Hp). pose proof (Z.prime_ge_2 q Hq).
  assert (Hnz : e * d <> 0).
  { intros Hz. rewrite Hz, Z.mod_0_l in Hed by nia. discriminate. }
  nia.
Qed.

(** Encryption followed by decryption raises to the product of the
    exponents. *)
Lemma rsa_twice n e d m :
  0 < n -> 0 < e -> 0 < d ->
  (let? c := rsa n e m in rsa n d c) = Ok (m ^ (e * d) mod n).
Proof.
  intros Hn He Hd. unfold rsa. rewrite mod_exp_55_pos by lia. simpl.
  rewrite mod_exp_55_pos by lia. f_equal.
  rewrite Z.mod_pow_l, <- Z.pow_mul_r by lia. reflexivity.
Qed.

(** C1: for every key pair that satisfies the RSA key invariants ([p] and
    [q] distinct primes, [n = p * q], [e * d] congruent to 1 modulo
    [(p - 1) * (q - 1)], the exponents being the unsigned integers of a
    key) and every [m] with [0 <= m < n], decrypting the encryption of [m]
    gives [m] back: [rsa n d (rsa n e m) = m]. *)
Theorem rsa_round_trip (p q n e d m : Z) :
  Z.prime p -> Z.prime q -> p <> q ->
  n = p * q ->
  0 <= e -> 0 <= d ->
  (e * d) mod ((p - 1) * (q - 1)) = 1 ->
  0 <= m < n ->
  (let? c := rsa n e m in rsa n d c) = Ok m.
Proof.
  intros Hp Hq Hpq Hn He Hd Hed Hm.
  destruct (rsa_exponents_positive p q e d) as [Hepos Hdpos]; try assumption.
  pose proof (Z.prime_ge_2 p Hp). pose proof (Z.prime_ge_2 q Hq).
  assert (Hnpos : 0 < n) by nia.
  rewrite rsa_twice by assumption. f_equal.
  rewrite Hn, rsa_exponents by assumption.
  apply Z.mod_small. lia.
Qed.

Lemma prime_61 : Z.prime 61.
Proof. apply trial_division_prime; [lia | vm_compute; reflexivity]. Qed.

Lemma prime_53 : Z.prime 53.
Proof. apply trial_division_prime; [lia | vm_compute; reflexivity]. Qed.

Lemma rsa_round_trip_witness :
  (let? c := rsa 3233 17 65 in rsa 3233 2753 c) = Ok 65.
Proof.
  apply (rsa_round_trip 61 53 3233 17 2753 65).
  - exact prime_61.
  - exact prime_53.
  - lia.
  - reflexivity.
  - lia.
  - lia.
  - reflexivity.
  - lia.
Defined.

(* ===================================================================== *)
(** ** Extended Euclid and the modular inverse                           *)
(* ===================================================================== *)

Section Euclid.
Variables A B : Z.

(** The loop invariant: both remainders are combinations of [A] and [B],
    and their gcd never changes. *)
Lemma extended_gcd_loop_spec remainder :
  0 <= remainder ->
  forall last_remainder x last_x y last_y,
    0 <= last_remainder ->
    last_remainder = A * last_x + B * last_y ->
    remainder = A * x + B * y ->
    exists g X Y,
      extended_gcd_loop last_remainder remainder x last_x y last_y = (g, X, Y)
      /\ g = Z.gcd last_remainder remainder
      /\ A * X + B * Y = g.
Proof.
  intros Hr. pattern remainder. apply Zlt_0_ind; [| exact Hr].
  clear remainder Hr. intros r IH Hr lr x lx y ly Hlr Hbl Hb.
  rewrite extended_gcd_loop_equation_1.
  destruct (Z.eq_dec r 0) as [Hz | Hnz]; simpl.
  - exists lr, lx, ly. rewrite Hz, Z.gcd_0_r, Z.abs_eq by assumption.
    repeat split; congruence.
  - pose proof (Z.mod_pos_bound lr r ltac:(lia)) as Hbound.
    destruct (IH (lr mod r) ltac:(lia) r
                (lx - lr / r * x) x (ly - lr / r * y) y)
      as (g & X & Y & Hrun & Hg & Hbez).
    + lia.
    + exact Hb.
    + rewrite Z.mod_eq by assumption.
      generalize (lr / r). intros quotient. rewrite Hbl, Hb. ring.
    + exists g, X, Y. repeat split; try assumption.
      rewrite Hg. rewrite Z.gcd_mod_r. apply Z.gcd_comm.
Qed.
End Euclid.

Lemma extended_gcd_spec a b :
  exists g x y,
    extended_gcd a b = (g, x, y)
    /\ g = Z.gcd (Z.abs a) (Z.abs b)
    /\ a * x + b * y = g.
Proof.
  unfold extended_gcd.
  destruct (extended_gcd_loop_spec (Z.abs a) (Z.abs b)
              (Z.abs b) (Z.abs_nonneg b)
              (Z.abs a) 0 1 1 0 (Z.abs_nonneg a) ltac:(ring) ltac:(ring))
    as (g & X & Y & Hrun & Hg & Hbez).
  rewrite Hrun. eexists _, _, _. split; [reflexivity |]. split; [exact Hg |].
  rewrite <- Hbez.
  destruct (Z.ltb_spec a 0), (Z.ltb_spec b 0); lia.
Qed.

(** C7: for all integers [a] and [b], [extended_gcd a b] returns a triple
    [(g, x, y)] with [g = gcd(|a|, |b|)] and [a * x + b * y = g], the
    identity holding for the signed inputs themselves. *)
Theorem extended_gcd_bezout (a b : Z) :
  let '(g, x, y) := extended_gcd a b in
  g = Z.gcd (Z.abs a) (Z.abs b) /\ a * x + b * y = g.
Proof.
  destruct (extended_gcd_spec a b) as (g & x & y & Hrun & Hg & Hbez).
  rewrite Hrun. split; assumption.
Qed.

Example extended_gcd_signed :
  extended_gcd 240 46 = (2, -9, 47) /\ extended_gcd (-240) 46 = (2, 9, 47)
  /\ extended_gcd 0 0 = (0, 1, 0).
Proof. repeat split; vm_compute; reflexivity. Qed.

(** What [mod_inv] returns, when it returns. *)
Lemma mod_inv_ok a m r :
  0 < m -> mod_inv a m = Ok r -> 0 <= r < m /\ (a * r) mod m = 1 mod m.
Proof.
  intros Hm. unfold mod_inv.
  destruct (extended_gcd_spec a m) as (g & x & y & Hrun & Hg & Hbez).
  rewrite Hrun. destruct (Z.eqb_spec g 1) as [-> | Hn1]; [| discriminate].
  simpl. rewrite py_mod_ok by lia. intros [= <-]. split.
  - apply Z.mod_pos_bound. exact Hm.
  - rewrite Z.mul_mod_idemp_r by lia.
    replace (a * x) with (1 + (- y) * m) by lia.
    apply Z.mod_add. lia.
Qed.

(** C3, as stated, fails at modulus 1: every [a] is coprime to 1, the
    value returned is 0, and [(a * 0) mod 1] is 0, not 1. *)
Lemma mod_inv_modulus_1 :
  0 < 1 /\ Z.gcd 5 1 = 1 /\ mod_inv 5 1 = Ok 0 /\ (5 * 0) mod 1 <> 1.
Proof.
  split; [lia |]. split; [reflexivity |]. split; [reflexivity |].
  discriminate.
Qed.

(** C3 (amended): for all integers [a] and [m] with [m > 0]: when
    [gcd(a, m) = 1], [mod_inv a m] returns an [r] in [0, m) with
    [a * r] congruent to 1 modulo [m], that is [(a * r) mod m = 1 mod m],
    which is 1 when [m > 1]; when [gcd(a, m) <> 1] it raises the
    [ValueError] that stands for the missing inverse. *)
Theorem mod_inv_correct (a m : Z) :
  0 < m ->
  (Z.gcd a m = 1 ->
     exists r, mod_inv a m = Ok r
               /\ 0 <= r < m
               /\ (a * r) mod m = 1 mod m
               /\ (1 < m -> (a * r) mod m = 1))
  /\ (Z.gcd a m <> 1 -> mod_inv a m = Raised ValueError).
Proof.
  intros Hm. unfold mod_inv.
  destruct (extended_gcd_spec a m) as (g & x & y & Hrun & Hg & Hbez).
  rewrite Hrun. rewrite Z.gcd_abs_l, Z.gcd_abs_r in Hg. subst g.
  split; intros Hgcd.
  - rewrite Hgcd in *. simpl. rewrite py_mod_ok by lia.
    assert (Hinv : (a * (x mod m)) mod m = 1 mod m).
    { rewrite Z.mul_mod_idemp_r by lia.
      replace (a * x) with (1 + (- y) * m) by lia.
      apply Z.mod_add. lia. }
    exists (x mod m). split; [reflexivity |]. split.
    + apply Z.mod_pos_bound. exact Hm.
    + split; [exact Hinv |]. intros Hm1.
      rewrite Hinv. apply Z.mod_1_l. exact Hm1.
  - destruct (Z.eqb_spec (Z.gcd a m) 1) as [H1 | Hn1];
      [congruence | reflexivity].
Qed.

Lemma mod_inv_correct_witness :
  (Z.gcd 4 8 = 1 ->
     exists r, mod_inv 4 8 = Ok r
               /\ 0 <= r < 8
               /\ (4 * r) mod 8 = 1 mod 8
               /\ (1 < 8 -> (4 * r) mod 8 = 1))
  /\ (Z.gcd 4 8 <> 1 -> mod_inv 4 8 = Raised ValueError).
Proof.
  apply (mod_inv_correct 4 8). lia.
Defined.

Example mod_inv_values :
  mod_inv 4 8 = Raised ValueError /\ mod_inv 17 3120 = Ok 2753
  /\ mod_inv 65537 3120 = Ok 2753 /\ mod_inv (-3) 7 = Ok 2.
Proof. repeat split; vm_compute; reflexivity. Qed.

(* ===================================================================== *)
(** ** The codec                                                         *)
(* ===================================================================== *)

Lemma lsb_value_app b l1 l2 :
  lsb_value b (l1 ++ l2) =
  lsb_value b l1 + b ^ Z.of_nat (List.length l1) * lsb_value b l2.
Proof.
  induction l1 as [| d l1 IH].
  - cbn [List.app lsb_value List.length]. change (Z.of_nat 0) with 0.
    rewrite Z.pow_0_r. ring.
  - cbn [List.app lsb_value List.length].
    rewrite IH, Nat2Z.inj_succ, Z.pow_succ_r by lia. ring.
Qed.

Lemma encode_loop_lsb b l : forall m_num,
  encode_loop l b m_num (Z.of_nat (List.length l) - 1) =
  m_num + lsb_value b (rev l).
Proof.
  induction l as [| i rest IH]; intros m_num.
  - simpl. lia.
  - cbn [encode_loop List.length rev].
    replace (Z.of_nat (S (List.length rest)) - 1 - 1)
      with (Z.of_nat (List.length rest) - 1) by lia.
    rewrite IH, lsb_value_app, length_rev. simpl lsb_value.
    replace (Z.of_nat (S (List.length rest)) - 1)
      with (Z.of_nat (List.length rest)) by lia.
    ring.
Qed.

Lemma encode_lsb s b :
  lowercase s ->
  encode s b = lsb_value b (rev (map digit (list_ascii_of_string s))).
Proof.
  intros Hs. unfold encode. rewrite lower_lowercase by assumption.
  rewrite encode_loop_lsb. reflexivity.
Qed.

Lemma lsb_value_length ds :
  Forall is_lower ds -> last ds "b"%char <> "a"%char ->
  Z.of_nat (List.length ds) <= lsb_value 26 (map digit ds).
Proof.
  induction 1 as [| c rest Hc Hrest IH]; intros Hlast.
  - simpl. lia.
  - cbn [map lsb_value List.length]. unfold is_lower, digit in *.
    destruct rest as [| c' rest'].
    + simpl in *.
      assert (ord c <> 97) by (intros E; apply Hlast, ord_inj; exact E).
      lia.
    + specialize (IH Hlast). cbn [List.length] in *. fold digit in *. lia.
Qed.

Lemma decode_loop_digits ds :
  Forall is_lower ds -> last ds "b"%char <> "a"%char ->
  forall fuel chars, (List.length ds < fuel)%nat ->
  decode_loop fuel (lsb_value 26 (map digit ds)) 26 chars =
  Some (Ok (chars ++ ds)).
Proof.
  induction 1 as [| c rest Hc Hrest IH]; intros Hlast fuel chars Hfuel.
  - destruct fuel as [| fuel]; [simpl in Hfuel; lia |].
    simpl. rewrite app_nil_r. reflexivity.
  - destruct fuel as [| fuel]; [simpl in Hfuel; lia |].
    pose proof (lsb_value_length (c :: rest) (Forall_cons _ Hc Hrest) Hlast)
      as Hlen.
    cbn [map lsb_value List.length] in *.
    set (v := lsb_value 26 (map digit rest)) in *.
    assert (Hd : 0 <= digit c < 26) by (unfold digit, is_lower in *; lia).
    cbn [decode_loop].
    destruct (Z.eqb_spec (digit c + 26 * v) 0) as [Hz | _]; [lia |].
    rewrite py_mod_ok by lia.
    replace ((digit c + 26 * v) mod 26) with (digit c)
      by (rewrite (Z.mul_comm 26 v), Z.mod_add, Z.mod_small by lia;
          reflexivity).
    replace (digit c + 97) with (ord c) by (unfold digit; lia).
    rewrite chr_ord.
    replace ((digit c + 26 * v) / 26) with v
      by (rewrite (Z.mul_comm 26 v), Z.div_add, Z.div_small by lia; lia).
    unfold v. rewrite IH.
    + rewrite <- app_assoc. reflexivity.
    + destruct rest; [discriminate |]. exact Hlast.
    + lia.
Qed.

(** A string that does not begin with [a] comes back as it was. *)
Lemma decode_encode_no_leading_a s :
  lowercase s -> s <> EmptyString -> ~ starts_with_a s ->
  encode s 26 <> 0
  /\ forall fuel, (String.length s < fuel)%nat ->
       decode fuel (encode s 26) 26 = Some (Ok (DStr s)).
Proof.
  intros Hlow Hne Hna.
  destruct s as [| c rest]; [contradiction |].
  set (ds := rev (list_ascii_of_string (String c rest))).
  assert (Hds : Forall is_lower ds) by (apply Forall_rev; exact Hlow).
  assert (Hlast : last ds "b"%char <> "a"%char).
  { unfold ds. cbn [list_ascii_of_string rev]. rewrite last_last.
    intros ->. apply Hna. exists rest. reflexivity. }
  assert (Hlen : List.length ds = String.length (String c rest)).
  { unfold ds. rewrite length_rev. clear.
    generalize (String c rest). intros s. induction s; simpl; congruence. }
  assert (Henc : encode (String c rest) 26 = lsb_value 26 (map digit ds)).
  { rewrite encode_lsb by assumption. unfold ds. rewrite map_rev. reflexivity. }
  pose proof (lsb_value_length ds Hds Hlast) as Hval.
  assert (Hpos : 0 < encode (String c rest) 26).
  { rewrite Henc. rewrite Hlen in Hval. cbn [String.length] in Hval. lia. }
  split; [lia |]. intros fuel Hfuel. unfold decode.
  destruct (Z.eqb_spec (encode (String c rest) 26) 0) as [Hz | _]; [lia |].
  rewrite Henc, decode_loop_digits by (assumption || lia).
  cbn [List.app]. unfold ds. rewrite rev_involutive.
  rewrite string_of_list_ascii_of_string. reflexivity.
Qed.

Lemma encode_cons_a rest b : encode (String "a" rest) b = encode rest b.
Proof.
  unfold encode, lower. cbn [list_ascii_of_string map].
  rewrite !list_ascii_of_string_of_list_ascii.
  cbn [map List.length encode_loop].
  change (ord (lower_char "a") - 97) with 0.
  rewrite Z.mul_0_l, Z.add_0_r. f_equal. lia.
Qed.

Lemma strip_a_spec s :
  lowercase s ->
  lowercase (strip_a s)
  /\ ~ starts_with_a (strip_a s)
  /\ encode (strip_a s) 26 = encode s 26
  /\ (String.length (strip_a s) <= String.length s)%nat
  /\ (~ starts_with_a s -> strip_a s = s).
Proof.
  induction s as [| c rest IH]; intros Hlow.
  - repeat split; try assumption; try reflexivity.
    intros [r Hr]. discriminate.
  - cbn [strip_a]. destruct (Ascii.eqb_spec c "a") as [-> | Hc].
    + unfold lowercase in Hlow. cbn [list_ascii_of_string] in Hlow.
      apply Forall_inv_tail in Hlow.
      destruct (IH Hlow) as (H1 & H2 & H3 & H4 & H5).
      repeat split; try assumption.
      * rewrite encode_cons_a. exact H3.
      * cbn [String.length]. lia.
      * intros Hna. exfalso. apply Hna. exists rest. reflexivity.
    + repeat split; try assumption; try reflexivity; try lia.
      intros [r Hr]. congruence.
Qed.

(** C4 (amended): for every nonempty string [s] of lowercase letters whose
    encoding is nonzero, [decode (encode s)] is [s] without its leading
    letters [a], hence [s] itself when [s] does not begin with [a];
    moreover [encode "dog" = 2398] and [decode 2398 = "dog"].  The loop of
    [decode] runs once per letter. *)
Theorem decode_encode_strips (s : string) :
  s <> EmptyString -> lowercase s -> encode s 26 <> 0 ->
  (forall fuel, (String.length s < fuel)%nat ->
     decode fuel (encode s 26) 26 = Some (Ok (DStr (strip_a s))))
  /\ (~ starts_with_a s -> strip_a s = s)
  /\ encode "dog" 26 = 2398
  /\ (forall fuel, (3 < fuel)%nat -> decode fuel 2398 26 = Some (Ok (DStr "dog"))).
Proof.
  intros Hne Hlow Henc.
  destruct (strip_a_spec s Hlow) as (H1 & H2 & H3 & H4 & H5).
  assert (Hne' : strip_a s <> EmptyString).
  { intros Hz. rewrite Hz in H3. apply Henc. rewrite <- H3. reflexivity. }
  destruct (decode_encode_no_leading_a (strip_a s) H1 Hne' H2) as [_ Hrt].
  split; [| split; [exact H5 | split; [reflexivity |]]].
  - intros fuel Hfuel. rewrite <- H3. apply Hrt. lia.
  - intros fuel Hfuel.
    assert (Hdog : lowercase "dog").
    { unfold lowercase, is_lower. simpl. repeat constructor; vm_compute; discriminate. }
    assert (Hdog' : ~ starts_with_a "dog") by (intros [r Hr]; discriminate).
    destruct (decode_encode_no_leading_a "dog" Hdog ltac:(discriminate) Hdog')
      as [_ Hrt'].
    change 2398 with (encode "dog" 26). apply Hrt'. exact Hfuel.
Qed.

Lemma decode_encode_strips_witness :
  (forall fuel, (String.length "and" < fuel)%nat ->
     decode fuel (encode "and" 26) 26 = Some (Ok (DStr (strip_a "and"))))
  /\ (~ starts_with_a "and" -> strip_a "and" = "and"%string)
  /\ encode "dog" 26 = 2398
  /\ (forall fuel, (3 < fuel)%nat ->
        decode fuel 2398 26 = Some (Ok (DStr "dog"))).
Proof.
  apply (decode_encode_strips "and").
  - discriminate.
  - unfold lowercase, is_lower. simpl.
    repeat constructor; vm_compute; discriminate.
  - vm_compute. discriminate.
Defined.

(** C4, as stated, fails on a string that begins with [a]: the encoding of
    ["ab"] is 1, which decodes to ["b"]. *)
Lemma decode_encode_ab :
  ("ab"%string <> EmptyString /\ lowercase "ab" /\ encode "ab" 26 <> 0)
  /\ (forall fuel, decode fuel (encode "ab" 26) 26 <> Some (Ok (DStr "ab")))
  /\ decode 2 (encode "ab" 26) 26 = Some (Ok (DStr "b")).
Proof.
  split; [split; [discriminate | split] |].
  - unfold lowercase, is_lower. simpl. repeat constructor; vm_compute; discriminate.
  - vm_compute. discriminate.
  - split; [| reflexivity].
    intros [| [| fuel]]; vm_compute; discriminate.
Qed.

(** Every positive integer has a digit list with no zero at the top. *)
Lemma digits_exist n :
  0 < n ->
  exists ds, Forall is_lower ds /\ ds <> [] /\ last ds "b"%char <> "a"%char
             /\ lsb_value 26 (map digit ds) = n.
Proof.
  intros Hn. assert (H0 : 0 <= n) by lia. revert Hn.
  pattern n. apply Zlt_0_ind; [| exact H0]. clear n H0.
  intros n IH _ Hn.
  pose proof (Z.mod_pos_bound n 26 ltac:(lia)) as Hr.
  pose proof (Z.div_mod n 26 ltac:(lia)) as Hdm.
  set (c := ascii_of_N (Z.to_N (n mod 26 + 97))).
  assert (Hc : ord c = n mod 26 + 97).
  { apply ord_chr. unfold chr, c.
    destruct (Z.leb_spec 0 (n mod 26 + 97)); [| lia].
    destruct (Z.ltb_spec (n mod 26 + 97) 256); [| lia]. reflexivity. }
  assert (Hlow : is_lower c) by (unfold is_lower; lia).
  destruct (Z.eq_dec (n / 26) 0) as [Hz | Hnz].
  - exists [c]. repeat split.
    + constructor; [exact Hlow | constructor].
    + discriminate.
    + simpl. intros E. rewrite E in Hc. change (ord "a") with 97 in Hc. lia.
    + cbn [map lsb_value]. unfold digit. lia.
  - assert (Hq : 0 < n / 26) by (pose proof (Z.div_pos n 26); lia).
    destruct (IH (n / 26) ltac:(lia) Hq) as (ds & Hds & Hne & Hlast & Hval).
    exists (c :: ds). repeat split.
    + constructor; assumption.
    + discriminate.
    + destruct ds; [contradiction | exact Hlast].
    + cbn [map lsb_value]. rewrite Hval. unfold digit. lia.
Qed.

(** C10: for every integer [n > 0], [decode n] returns a nonempty string
    of lowercase letters whose first letter is not [a], and
    [encode (decode n) = n]. *)
Theorem encode_decode (n : Z) :
  0 < n ->
  exists s,
    (forall fuel, (String.length s < fuel)%nat ->
       decode fuel n 26 = Some (Ok (DStr s)))
    /\ s <> EmptyString
    /\ lowercase s
    /\ ~ starts_with_a s
    /\ encode s 26 = n.
Proof.
  intros Hn.
  destruct (digits_exist n Hn) as (ds & Hds & Hne & Hlast & Hval).
  set (s := string_of_list_ascii (rev ds)).
  assert (Hlist : list_ascii_of_string s = rev ds)
    by apply list_ascii_of_string_of_list_ascii.
  assert (Hlow : lowercase s).
  { unfold lowercase. rewrite Hlist. apply Forall_rev. exact Hds. }
  destruct (exists_last Hne) as (l & c & Hsplit).
  assert (Hs : s = String c (string_of_list_ascii (rev l))).
  { unfold s. rewrite Hsplit, rev_app_distr. reflexivity. }
  assert (Hc : c <> "a"%char).
  { rewrite Hsplit, last_last in Hlast. exact Hlast. }
  assert (Hnes : s <> EmptyString) by (rewrite Hs; discriminate).
  assert (Hna : ~ starts_with_a s).
  { rewrite Hs. intros [r Hr]. congruence. }
  assert (Henc : encode s 26 = n).
  { rewrite encode_lsb by assumption.
    rewrite Hlist, map_rev, rev_involutive. exact Hval. }
  exists s. repeat split; try assumption.
  intros fuel Hfuel.
  destruct (decode_encode_no_leading_a s Hlow Hnes Hna) as [_ Hrt].
  rewrite <- Henc. apply Hrt. exact Hfuel.
Qed.

Lemma encode_decode_witness :
  exists s,
    (forall fuel, (String.length s < fuel)%nat ->
       decode fuel 2398 26 = Some (Ok (DStr s)))
    /\ s <> EmptyString
    /\ lowercase s
    /\ ~ starts_with_a s
    /\ encode s 26 = 2398.
Proof.
  apply (encode_decode 2398). lia.
Defined.

(** On a negative input the loop of [decode] never ends. *)
Lemma decode_loop_negative fuel : forall n chars,
  n < 0 -> decode_loop fuel n 26 chars = None.
Proof.
  induction fuel as [| fuel IH]; intros n chars Hn; [reflexivity |].
  cbn [decode_loop].
  destruct (Z.eqb_spec n 0); [lia |].
  rewrite py_mod_ok by lia.
  pose proof (Z.mod_pos_bound n 26 ltac:(lia)) as Hr.
  unfold chr.
  destruct (Z.leb_spec 0 (n mod 26 + 97)); [| lia].
  destruct (Z.ltb_spec (n mod 26 + 97) 256); [| lia]. simpl.
  apply IH. apply Z.div_lt_upper_bound; lia.
Qed.

Lemma decode_negative_diverges fuel n : n < 0 -> decode fuel n 26 = None.
Proof.
  intros Hn. unfold decode. destruct (Z.eqb_spec n 0); [lia |].
  rewrite decode_loop_negative by assumption. reflexivity.
Qed.

Example decode_zero : forall fuel, decode fuel 0 26 = Some (Ok (DList [0])).
Proof. reflexivity. Qed.

(* ===================================================================== *)
(** ** Miller-Rabin                                                      *)
(* ===================================================================== *)

Lemma skip_0 g : skip 0 g = g.
Proof. destruct g as [tp cur]. unfold skip. simpl. rewrite Nat.add_0_r. reflexivity. Qed.

Lemma skip_skip i j g : skip j (skip i g) = skip (i + j) g.
Proof. unfold skip. simpl. f_equal. lia. Qed.

(** What [randint] draws lies in the range asked for. *)
Lemma randint_range lo hi g :
  lo <= hi ->
  exists a, randint lo hi g = Some (Ok a, skip 1 g) /\ lo <= a <= hi.
Proof.
  intros Hle. unfold randint. destruct (Z.ltb_spec hi lo); [lia |].
  eexists. split; [reflexivity |].
  pose proof (Z.mod_pos_bound (tape g (cursor g) - lo) (hi - lo + 1) ltac:(lia)).
  lia.
Qed.

(** Every value of the range is drawn by some tape. *)
Lemma randint_any lo hi g a :
  lo <= a <= hi -> tape g (cursor g) = a ->
  randint lo hi g = Some (Ok a, skip 1 g).
Proof.
  intros Ha Htape. unfold randint. destruct (Z.ltb_spec hi lo); [lia |].
  rewrite Htape, Z.mod_small by lia. do 3 f_equal. lia.
Qed.

Lemma split_loop_mono fuel : forall n_sub k r fuel',
  split_loop fuel n_sub k = Some r -> (fuel <= fuel')%nat ->
  split_loop fuel' n_sub k = Some r.
Proof.
  induction fuel as [| fuel IH]; intros n_sub k r fuel' Hrun Hle;
    [discriminate |].
  destruct fuel' as [| fuel']; [lia |].
  cbn [split_loop] in *.
  destruct (n_sub mod 2 =? 0); [| exact Hrun].
  apply IH with (1 := Hrun). lia.
Qed.

Lemma all_witnesses_pass_check n k n_sub a :
  all_witnesses_pass n k n_sub = true -> 2 <= a <= n - 1 ->
  check a k n_sub n = Ok true.
Proof.
  unfold all_witnesses_pass. rewrite forallb_forall. intros Hall Ha.
  specialize (Hall a). unfold passes in Hall.
  assert (Hin : In a (map Z.of_nat (seq 2 (Z.to_nat n - 2)))).
  { apply in_map_iff. exists (Z.to_nat a).
    split; [lia | apply in_seq; lia]. }
  apply Hall in Hin.
  destruct (check a k n_sub n) as [[|] | e];
    [reflexivity | discriminate | discriminate].
Qed.

Lemma rounds_all_pass n k n_sub :
  3 <= n -> all_witnesses_pass n k n_sub = true ->
  forall i g, rounds i n k n_sub g = Some (Ok true, skip i g).
Proof.
  intros Hn Hall. induction i as [| i IH]; intros g.
  - cbn [rounds ret]. rewrite skip_0. reflexivity.
  - cbn [rounds]. unfold bind at 1.
    destruct (randint_range 2 (n - 1) g ltac:(lia)) as (a & Hdraw & Ha).
    rewrite Hdraw. unfold bind, lift.
    rewrite (all_witnesses_pass_check n k n_sub a Hall Ha). cbn [negb].
    rewrite IH, skip_skip. reflexivity.
Qed.

Lemma miller_rabin_all_pass n k n_sub fuel0 :
  3 <= n -> split_loop fuel0 (n - 1) 0 = Some (n_sub, k) ->
  all_witnesses_pass n k n_sub = true ->
  forall fuel t g, (fuel0 <= fuel)%nat ->
    miller_rabin fuel n t g = Some (Ok true, skip (Z.to_nat t) g).
Proof.
  intros Hn Hsplit Hall fuel t g Hfuel. unfold miller_rabin.
  rewrite (split_loop_mono fuel0 _ _ _ fuel Hsplit Hfuel).
  apply rounds_all_pass; assumption.
Qed.

(** C9: for each [n] of 7, 11, 13, 97 and 7919 and whatever the random
    source produces (every tape, hence every sequence of witnesses of
    [2 .. n-1]), [miller_rabin n t] returns [True], after [t] draws; the
    halving loop needs at most six tests on these numbers. *)
Theorem miller_rabin_known_primes (n t : Z) (fuel : nat) (g : rng) :
  In n [7; 11; 13; 97; 7919] -> (6 <= fuel)%nat ->
  miller_rabin fuel n t g = Some (Ok true, skip (Z.to_nat t) g).
Proof.
  intros Hin Hfuel.
  repeat (destruct Hin as [<- | Hin]); try contradiction.
  - apply (miller_rabin_all_pass 7 1 3 6); try assumption; try lia;
      vm_compute; reflexivity.
  - apply (miller_rabin_all_pass 11 1 5 6); try assumption; try lia;
      vm_compute; reflexivity.
  - apply (miller_rabin_all_pass 13 2 3 6); try assumption; try lia;
      vm_compute; reflexivity.
  - apply (miller_rabin_all_pass 97 5 3 6); try assumption; try lia;
      vm_compute; reflexivity.
  - apply (miller_rabin_all_pass 7919 1 3959 6); try assumption; try lia;
      vm_compute; reflexivity.
Qed.

Lemma miller_rabin_known_primes_witness :
  miller_rabin 6 7919 10 (mkRng textbook_tape 0)
  = Some (Ok true, skip (Z.to_nat 10) (mkRng textbook_tape 0)).
Proof.
  apply (miller_rabin_known_primes 7919 10 6 (mkRng textbook_tape 0)).
  - simpl. tauto.
  - lia.
Defined.

(** On 1 the halving loop never ends. *)
Lemma split_loop_zero fuel : forall k, split_loop fuel 0 k = None.
Proof.
  induction fuel as [| fuel IH]; intros k; [reflexivity |].
  cbn [split_loop]. change (0 mod 2 =? 0) with true. cbn iota.
  change (Z.shiftr 0 1) with 0. apply IH.
Qed.

Lemma miller_rabin_one_diverges fuel t g : miller_rabin fuel 1 t g = None.
Proof.
  unfold miller_rabin. change (1 - 1) with 0. rewrite split_loop_zero.
  reflexivity.
Qed.

(** The Carmichael number 561 is rejected by the witness 2. *)
Example miller_rabin_561 :
  miller_rabin 6 561 10 (mkRng textbook_tape 0)
  = Some (Ok false, mkRng textbook_tape 1).
Proof. vm_compute. reflexivity. Qed.

(* ===================================================================== *)
(** ** Key generation                                                    *)
(* ===================================================================== *)

(** C8, as stated, fails: in a run where 65537 divides [phi], the
    [ValueError] of [mod_inv] is what [key_gen] ends with, after the 22
    draws that produced [p] and [q]; no other [q] is drawn. *)
Lemma key_gen_unlucky :
  key_gen_primes 5 (mkRng unlucky_tape 0)
  = Some (Ok (PyInt 917519, PyInt 3), mkRng unlucky_tape 22)
  /\ mod_inv 65537 ((917519 - 1) * (3 - 1)) = Raised ValueError
  /\ key_gen 5 (mkRng unlucky_tape 0)
     = Some (Raised ValueError, mkRng unlucky_tape 22).
Proof. repeat split; vm_compute; reflexivity. Qed.

(** C8 (amended): inside key generation, when [mod_inv e phi] fails,
    [key_gen] neither regenerates [q] nor retries: the error raised by
    [mod_inv] reaches the caller as it is, with the random source in the
    state the two primes left it in. *)
Theorem key_gen_propagates (fuel : nat) (g g' : rng) (p q : candidate) (e : exn) :
  key_gen_primes fuel g = Some (Ok (p, q), g') ->
  mod_inv 65537 ((int_of p - 1) * (int_of q - 1)) = Raised e ->
  key_gen fuel g = Some (Raised e, g').
Proof.
  intros Hprimes Hinv. unfold key_gen, bind. rewrite Hprimes.
  unfold lift, key_gen_keys. rewrite Hinv. reflexivity.
Qed.

Lemma key_gen_propagates_witness :
  key_gen 5 (mkRng unlucky_tape 0)
  = Some (Raised ValueError, mkRng unlucky_tape 22).
Proof.
  apply (key_gen_propagates 5 (mkRng unlucky_tape 0) (mkRng unlucky_tape 22)
           (PyInt 917519) (PyInt 3) ValueError).
  - vm_compute. reflexivity.
  - vm_compute. reflexivity.
Defined.

(** Otherwise the keys are built from the two primes. *)
Lemma key_gen_returns (fuel : nat) (g g' : rng) (p q : candidate) (a : Z) :
  key_gen_primes fuel g = Some (Ok (p, q), g') ->
  mod_inv 65537 ((int_of p - 1) * (int_of q - 1)) = Ok a ->
  key_gen fuel g
  = Some (Ok ((int_of p * int_of q, 65537), (int_of p, int_of q, a)), g').
Proof.
  intros Hprimes Hinv. unfold key_gen, bind. rewrite Hprimes.
  unfold lift, key_gen_keys. rewrite Hinv. reflexivity.
Qed.

(** The keys that [key_gen] builds from two distinct primes decrypt what
    they encrypt; decryption is [rsa (p * q) a c], as the menu calls it. *)
Lemma key_gen_keys_round_trip p q n b p' q' a m :
  Z.prime p -> Z.prime q -> p <> q ->
  key_gen_keys 65537 (PyInt p, PyInt q) = Ok ((n, b), (p', q', a)) ->
  0 <= m < n ->
  (let? c := rsa n b m in rsa (p' * q') a c) = Ok m.
Proof.
  intros Hp Hq Hpq Hkeys Hm.
  pose proof (Z.prime_ge_2 p Hp). pose proof (Z.prime_ge_2 q Hq).
  unfold key_gen_keys in Hkeys. cbn [int_of] in Hkeys.
  destruct (mod_inv 65537 ((p - 1) * (q - 1))) as [d | e] eqn:Hinv;
    [| discriminate].
  simpl in Hkeys. injection Hkeys as <- <- <- <- <-.
  assert (Hphi : 0 < (p - 1) * (q - 1)) by nia.
  destruct (mod_inv_ok _ _ _ Hphi Hinv) as [Hd Hed].
  assert (Hphi1 : 1 < (p - 1) * (q - 1)).
  { destruct (Z.eq_dec p 2), (Z.eq_dec q 2); nia. }
  rewrite Z.mod_1_l in Hed by exact Hphi1.
  destruct (rsa_exponents_positive p q 65537 d) as [_ Hdpos];
    try assumption; try lia.
  rewrite rsa_twice by (lia || nia).
  rewrite rsa_exponents by (assumption || lia).
  f_equal. apply Z.mod_small. lia.
Qed.

Example key_gen_textbook :
  key_gen 5 (mkRng textbook_tape 0)
  = Some (Ok ((3233, 65537), (61, 53, 2753)), mkRng textbook_tape 22).
Proof. vm_compute. reflexivity. Qed.

(* ===================================================================== *)
(** ** More on modular exponentiation                                  *)
(* ===================================================================== *)

(** X1: a zero modulus is only met when the exponent is positive: then the
    first [%] of the loop raises [ZeroDivisionError]; with an exponent
    [<= 0] the call returns 1 before the modulus is looked at. *)
Theorem mod_exp_55_modulus_zero (b ex : Z) :
  (0 < ex -> mod_exp_55 b ex 0 = Raised ZeroDivisionError)
  /\ (ex <= 0 -> mod_exp_55 b ex 0 = Ok 1).
Proof.
  split; intros Hex.
  - apply mod_exp_55_zero_modulus. exact Hex.
  - apply mod_exp_55_nonpos. exact Hex.
Qed.

Lemma mod_exp_55_modulus_zero_witness :
  (0 < 5 -> mod_exp_55 2 5 0 = Raised ZeroDivisionError)
  /\ (5 <= 0 -> mod_exp_55 2 5 0 = Ok 1).
Proof.
  apply (mod_exp_55_modulus_zero 2 5).
Defined.

(** X2: for a positive exponent and any nonzero modulus, negative ones
    included, [mod_exp_55] returns [b ^ ex mod m] with the sign of the
    modulus: in [0, m) when [m > 0], in (m, 0] when [m < 0]. *)
Theorem mod_exp_55_any_modulus (b ex m : Z) :
  0 < ex -> m <> 0 ->
  exists r, mod_exp_55 b ex m = Ok r
            /\ r = b ^ ex mod m
            /\ (0 < m -> 0 <= r < m)
            /\ (m < 0 -> m < r <= 0).
Proof.
  intros Hex Hm. exists (b ^ ex mod m).
  split; [apply mod_exp_55_pos; assumption |]. split; [reflexivity |].
  split; intros Hs.
  - apply Z.mod_pos_bound. exact Hs.
  - apply Z.mod_neg_bound. exact Hs.
Qed.

Lemma mod_exp_55_any_modulus_witness :
  exists r, mod_exp_55 2 5 (-7) = Ok r
            /\ r = 2 ^ 5 mod (-7)
            /\ (0 < -7 -> 0 <= r < -7)
            /\ (-7 < 0 -> -7 < r <= 0).
Proof.
  apply (mod_exp_55_any_modulus 2 5 (-7)); lia.
Defined.

(* ===================================================================== *)
(** ** More on the codec                                               *)
(* ===================================================================== *)


Lemma string_length_list s :
  List.length (list_ascii_of_string s) = String.length s.
Proof. induction s; simpl; congruence. Qed.

(** [encode] read as a numeral, for every string. *)
Lemma encode_digits s b :
  encode s b =
  lsb_value b (rev (map digit (map lower_char (list_ascii_of_string s)))).
Proof.
  unfold encode, lower. rewrite list_ascii_of_string_of_list_ascii.
  rewrite encode_loop_lsb. reflexivity.
Qed.


Lemma lsb_value_bound ds :
  Forall (fun d => 0 <= d < 26) ds ->
  0 <= lsb_value 26 ds < 26 ^ Z.of_nat (List.length ds).
Proof.
  induction 1 as [| d rest Hd Hrest IH].
  - simpl. lia.
  - cbn [lsb_value List.length]. rewrite Nat2Z.inj_succ, Z.pow_succ_r by lia.
    lia.
Qed.

Lemma lowercase_digits s :
  lowercase s ->
  Forall (fun d => 0 <= d < 26) (map digit (list_ascii_of_string s)).
Proof.
  unfold lowercase. intros H. apply Forall_map.
  eapply Forall_impl; [| exact H]. unfold is_lower, digit. intros c Hc. lia.
Qed.

(** X9: the encoding of a lowercase string of [len] letters lies in
    [0, 26 ^ len). *)
Theorem encode_bound (s : string) :
  lowercase s -> 0 <= encode s 26 < 26 ^ Z.of_nat (String.length s).
Proof.
  intros Hlow. rewrite encode_lsb by assumption.
  pose proof (lsb_value_bound (rev (map digit (list_ascii_of_string s)))) as Hb.
  rewrite length_rev, length_map, string_length_list in Hb.
  apply Hb. apply Forall_rev. apply lowercase_digits. exact Hlow.
Qed.

Lemma encode_bound_witness :
  0 <= encode "dog" 26 < 26 ^ Z.of_nat (String.length "dog").
Proof.
  apply (encode_bound "dog").
  unfold lowercase, is_lower. simpl.
  repeat constructor; vm_compute; discriminate.
Defined.

Lemma lsb_value_inj ds1 : forall ds2,
  Forall (fun d => 0 <= d < 26) ds1 -> Forall (fun d => 0 <= d < 26) ds2 ->
  List.length ds1 = List.length ds2 ->
  lsb_value 26 ds1 = lsb_value 26 ds2 -> ds1 = ds2.
Proof.
  induction ds1 as [| d1 r1 IH]; intros [| d2 r2] H1 H2 Hlen Hval;
    try discriminate; [reflexivity |].
  inversion H1; subst. inversion H2; subst. cbn [lsb_value] in Hval.
  assert (d1 = d2) by lia. subst d2.
  f_equal. apply IH; try assumption; [simpl in Hlen; lia | lia].
Qed.

Lemma map_digit_inj l1 : forall l2, map digit l1 = map digit l2 -> l1 = l2.
Proof.
  induction l1 as [| c1 l1 IH]; intros [| c2 l2] H; try discriminate;
    [reflexivity |].
  simpl in H. injection H as Hc Hl. f_equal; [| apply IH; exact Hl].
  apply ord_inj. unfold digit in Hc. lia.
Qed.

(** X10: on lowercase strings of one length [encode] is injective: two
    such strings with the same encoding are equal. *)
Theorem encode_injective (s t : string) :
  lowercase s -> lowercase t -> String.length s = String.length t ->
  encode s 26 = encode t 26 -> s = t.
Proof.
  intros Hs Ht Hlen Henc. rewrite !encode_lsb in Henc by assumption.
  apply lsb_value_inj in Henc.
  - apply (f_equal (@rev Z)) in Henc. rewrite !rev_involutive in Henc.
    apply map_digit_inj in Henc.
    rewrite <- (string_of_list_ascii_of_string s), Henc.
    apply string_of_list_ascii_of_string.
  - apply Forall_rev, lowercase_digits, Hs.
  - apply Forall_rev, lowercase_digits, Ht.
  - rewrite !length_rev, !length_map, !string_length_list. exact Hlen.
Qed.

Lemma encode_injective_witness : "dog"%string = "dog"%string.
Proof.
  apply (encode_injective "dog" "dog").
  - unfold lowercase, is_lower. simpl.
    repeat constructor; vm_compute; discriminate.
  - unfold lowercase, is_lower. simpl.
    repeat constructor; vm_compute; discriminate.
  - reflexivity.
  - reflexivity.
Defined.

Lemma lower_char_idem c : lower_char (lower_char c) = lower_char c.
Proof.
  destruct c as [[|] [|] [|] [|] [|] [|] [|] [|]]; vm_compute; reflexivity.
Qed.

Lemma map_lower_char_idem l :
  map lower_char (map lower_char l) = map lower_char l.
Proof.
  rewrite map_map. apply map_ext. intros c. apply lower_char_idem.
Qed.

(** X11: [encode] does not see the case of its input: a string and its
    lower-case form have the same encoding. *)
Theorem encode_lower (s : string) (b : Z) : encode (lower s) b = encode s b.
Proof.
  rewrite !encode_digits. unfold lower.
  rewrite list_ascii_of_string_of_list_ascii, map_lower_char_idem.
  reflexivity.
Qed.

(** X12: a string made of letters [a] only, the empty string among them,
    encodes to 0, and 0 decodes to the list [[0]]: none of these strings
    comes back from [decode]. *)
Theorem encode_all_a (s : string) :
  Forall (fun c => c = "a"%char) (list_ascii_of_string s) ->
  encode s 26 = 0
  /\ forall fuel, decode fuel (encode s 26) 26 = Some (Ok (DList [0])).
Proof.
  intros Hall.
  assert (Henc : encode s 26 = 0).
  { induction s as [| c rest IH]; [reflexivity |].
    cbn [list_ascii_of_string] in Hall. inversion Hall; subst.
    rewrite encode_cons_a. apply IH. assumption. }
  split; [exact Henc |]. intros fuel. rewrite Henc. reflexivity.
Qed.

Lemma encode_all_a_witness :
  encode "aaa" 26 = 0
  /\ forall fuel, decode fuel (encode "aaa" 26) 26 = Some (Ok (DList [0])).
Proof.
  apply (encode_all_a "aaa"). repeat constructor.
Defined.

(** X13: on a negative input [decode] returns nothing: the quotient stays
    negative ([-1 // 26] is [-1]), so the loop runs out of any fuel. *)
Theorem decode_negative (n : Z) (fuel : nat) :
  n < 0 ->
  decode fuel n 26 = None
  /\ forall chars, decode_loop fuel n 26 chars = None.
Proof.
  intros Hn. split.
  - apply decode_negative_diverges. exact Hn.
  - intros chars. apply decode_loop_negative. exact Hn.
Qed.

Lemma decode_negative_witness :
  decode 100 (-5) 26 = None
  /\ forall chars, decode_loop 100 (-5) 26 chars = None.
Proof.
  apply (decode_negative (-5) 100). lia.
Defined.

(* ===================================================================== *)
(** ** More on the modular inverse                                     *)
(* ===================================================================== *)

(** [mod_inv] unfolded once and for all. *)
Lemma mod_inv_cases a m :
  exists x y,
    a * x + m * y = Z.gcd a m
    /\ mod_inv a m =
       if negb (Z.gcd a m =? 1) then Raised ValueError else py_mod x m.
Proof.
  unfold mod_inv.
  destruct (extended_gcd_spec a m) as (g & x & y & Hrun & Hg & Hbez).
  rewrite Hrun. rewrite Z.gcd_abs_l, Z.gcd_abs_r in Hg. subst g.
  exists x, y. split; [exact Hbez | reflexivity].
Qed.

Lemma mod_inv_sound (a m r : Z) :
  mod_inv a m = Ok r ->
  m <> 0 /\ Z.gcd a m = 1 /\ (a * r) mod m = 1 mod m
  /\ (0 < m -> 0 <= r < m) /\ (m < 0 -> m < r <= 0).
Proof.
  destruct (mod_inv_cases a m) as (x & y & Hbez & ->).
  destruct (Z.eqb_spec (Z.gcd a m) 1) as [Hg | Hg]; [| discriminate].
  cbn [negb]. unfold py_mod.
  destruct (Z.eqb_spec m 0) as [Hm | Hm]; [discriminate |].
  intros [= <-]. split; [exact Hm |]. split; [exact Hg |]. split.
  - rewrite Z.mul_mod_idemp_r by exact Hm.
    replace (a * x) with (1 + (- y) * m) by lia.
    apply Z.mod_add. exact Hm.
  - split; intros Hs.
    + apply Z.mod_pos_bound. exact Hs.
    + apply Z.mod_neg_bound. exact Hs.
Qed.

(** X15: the errors of [mod_inv]: it raises [ValueError] exactly when
    [gcd(a, m) <> 1], and [ZeroDivisionError] (from [x % m]) exactly when
    [m = 0] and [a] is 1 or -1; it raises nothing else. *)
Theorem mod_inv_errors (a m : Z) (e : exn) :
  mod_inv a m = Raised e <->
  (e = ValueError /\ Z.gcd a m <> 1)
  \/ (e = ZeroDivisionError /\ m = 0 /\ Z.abs a = 1).
Proof.
  destruct (mod_inv_cases a m) as (x & y & Hbez & ->).
  destruct (Z.eqb_spec (Z.gcd a m) 1) as [Hg | Hg]; cbn [negb].
  - unfold py_mod. destruct (Z.eqb_spec m 0) as [Hm | Hm].
    + subst m. pose proof Hg as Ha. rewrite Z.gcd_0_r in Ha. split.
      * intros [= <-]. right. auto.
      * intros [[_ Hne] | (-> & _ & _)]; [contradiction | reflexivity].
    + split; [discriminate |].
      intros [[_ Hne] | (_ & Hz & _)]; contradiction.
  - split.
    + intros [= <-]. left. auto.
    + intros [[-> _] | (_ & -> & Ha)]; [reflexivity |].
      rewrite Z.gcd_0_r in Hg. contradiction.
Qed.

Lemma mod_inv_errors_witness :
  mod_inv 4 8 = Raised ValueError <->
  (ValueError = ValueError /\ Z.gcd 4 8 <> 1)
  \/ (ValueError = ZeroDivisionError /\ 8 = 0 /\ Z.abs 4 = 1).
Proof.
  apply (mod_inv_errors 4 8 ValueError).
Defined.

Lemma mod_inv_zero_modulus (a : Z) :
  mod_inv a 0 =
  if Z.abs a =? 1 then Raised ZeroDivisionError else Raised ValueError.
Proof.
  destruct (mod_inv_cases a 0) as (x & y & Hbez & ->).
  rewrite Z.gcd_0_r. destruct (Z.abs a =? 1); reflexivity.
Qed.

Lemma mod_inv_complete (a m : Z) :
  m <> 0 -> Z.gcd a m = 1 -> exists r, mod_inv a m = Ok r.
Proof.
  intros Hm Hg. destruct (mod_inv_cases a m) as (x & y & Hbez & ->).
  rewrite Hg. cbn. rewrite py_mod_ok by exact Hm. eexists. reflexivity.
Qed.

Lemma inverse_unique a m r r' :
  m <> 0 -> Z.gcd a m = 1 ->
  r mod m = r -> r' mod m = r' ->
  (a * r) mod m = 1 mod m -> (a * r') mod m = 1 mod m -> r' = r.
Proof.
  intros Hm Hg Hr Hr' H1 H2.
  assert (Hdiv : (m | a * (r' - r))).
  { apply Z.mod_divide; [lia |].
    replace (a * (r' - r)) with (a * r' - a * r) by ring.
    rewrite Zminus_mod, H1, H2, Z.sub_diag. apply Z.mod_0_l. lia. }
  apply Z.gauss in Hdiv; [| rewrite Z.gcd_comm; exact Hg].
  destruct Hdiv as [c Hc].
  rewrite <- Hr, <- Hr'. replace r' with (r + c * m) by lia.
  apply Z.mod_add. exact Hm.
Qed.

Lemma mod_range_fixed r m :
  (0 < m -> 0 <= r < m) -> (m < 0 -> m < r <= 0) -> m <> 0 -> r mod m = r.
Proof.
  intros Hpos Hneg Hm. destruct (Z_lt_le_dec 0 m).
  - apply Z.mod_small. auto.
  - apply Z.mod_small_iff; [exact Hm |]. right. apply Hneg. lia.
Qed.

(** X14: for every nonzero modulus, negative ones included, [mod_inv a m]
    returns [r] exactly when [gcd(a, m) = 1], [a * r] is congruent to 1
    modulo [m] and [r] is reduced modulo [m]; so the value returned is the
    only such inverse. *)
Theorem mod_inv_characterised (a m r : Z) :
  m <> 0 ->
  (mod_inv a m = Ok r <->
   Z.gcd a m = 1 /\ (a * r) mod m = 1 mod m /\ r mod m = r).
Proof.
  intros Hm. split.
  - intros Hinv.
    destruct (mod_inv_sound a m r Hinv) as (_ & Hg & Hr1 & Hpos & Hneg).
    split; [exact Hg |]. split; [exact Hr1 |].
    apply mod_range_fixed; assumption.
  - intros (Hg & Hr1 & Hfix).
    destruct (mod_inv_complete a m Hm Hg) as [r0 Hr0].
    rewrite Hr0. f_equal.
    destruct (mod_inv_sound a m r0 Hr0) as (_ & _ & Hr01 & Hpos & Hneg).
    symmetry. apply (inverse_unique a m r0 r); auto.
    apply mod_range_fixed; assumption.
Qed.

Lemma mod_inv_characterised_witness :
  mod_inv (-3) (-7) = Ok (-5) <->
  Z.gcd (-3) (-7) = 1 /\ (-3 * -5) mod -7 = 1 mod -7 /\ -5 mod -7 = -5.
Proof.
  apply (mod_inv_characterised (-3) (-7) (-5)). lia.
Defined.

(** X16: for [m > 0] the inverse of the inverse is the number itself,
    reduced: when [mod_inv a m] returns [r], [mod_inv r m] returns
    [a mod m]. *)
Theorem mod_inv_involutive (a m r : Z) :
  0 < m -> mod_inv a m = Ok r -> mod_inv r m = Ok (a mod m).
Proof.
  intros Hm Hinv.
  destruct (mod_inv_sound a m r Hinv) as (_ & Hg & Hr1 & Hpos & _).
  specialize (Hpos Hm).
  assert (Hgr : Z.gcd r m = 1).
  { apply Z.bezout_1_gcd.
    pose proof (Z.div_mod (a * r) m ltac:(lia)) as Hdm.
    destruct (Z.eq_dec m 1) as [-> | Hm1].
    - exists 0, 1. lia.
    - rewrite Hr1, Z.mod_1_l in Hdm by lia.
      exists a, (- ((a * r) / m)). lia. }
  destruct (mod_inv_complete r m ltac:(lia) Hgr) as [r2 Hr2].
  rewrite Hr2. f_equal.
  destruct (mod_inv_sound r m r2 Hr2) as (_ & _ & Hr21 & Hpos2 & _).
  symmetry. apply (inverse_unique r m r2 (a mod m)); auto; try lia.
  - apply Z.mod_small. auto.
  - apply Z.mod_mod. lia.
  - rewrite Z.mul_mod_idemp_r by lia. rewrite Z.mul_comm. exact Hr1.
Qed.

Lemma mod_inv_involutive_witness : mod_inv 2753 3120 = Ok (17 mod 3120).
Proof.
  apply (mod_inv_involutive 17 3120 2753); [lia | vm_compute; reflexivity].
Defined.

(** X17: zero inputs of [extended_gcd]: with [b = 0] the loop does not run
    and the result is [(|a|, 1 or -1, 0)]; with [a = 0] and [b <> 0] one
    round gives [(|b|, 0, 1 or -1)]. *)
Theorem extended_gcd_zero (a b : Z) :
  extended_gcd a 0 = (Z.abs a, (if a <? 0 then -1 else 1), 0)
  /\ (b <> 0 -> extended_gcd 0 b = (Z.abs b, 0, (if b <? 0 then -1 else 1))).
Proof.
  split.
  - unfold extended_gcd. change (Z.abs 0) with 0.
    rewrite extended_gcd_loop_equation_1. simpl.
    destruct (a <? 0); reflexivity.
  - intros Hb. unfold extended_gcd. change (Z.abs 0) with 0.
    rewrite extended_gcd_loop_equation_1.
    destruct (Z.eq_dec (Z.abs b) 0) as [Hz | Hnz]; [lia |]. cbn zeta.
    simpl. rewrite extended_gcd_loop_equation_1. simpl.
    destruct (b <? 0); reflexivity.
Qed.

Lemma extended_gcd_zero_witness :
  extended_gcd 5 0 = (Z.abs 5, (if 5 <? 0 then -1 else 1), 0)
  /\ (-3 <> 0 ->
      extended_gcd 0 (-3) = (Z.abs (-3), 0, (if -3 <? 0 then -1 else 1))).
Proof.
  apply (extended_gcd_zero 5 (-3)).
Defined.

(* ===================================================================== *)
(** ** More on Miller-Rabin                                            *)
(* ===================================================================== *)

Lemma split_loop_spec fuel : forall n_sub k,
  n_sub <> 0 -> Z.log2 (Z.abs n_sub) < Z.of_nat fuel ->
  exists m j,
    split_loop fuel n_sub k = Some (m, k + j)
    /\ 0 <= j /\ m mod 2 = 1 /\ n_sub = 2 ^ j * m.
Proof.
  induction fuel as [| fuel IH]; intros n_sub k Hnz Hlog.
  - pose proof (Z.log2_nonneg (Z.abs n_sub)). lia.
  - cbn [split_loop].
    pose proof (Z.mod_pos_bound n_sub 2 ltac:(lia)) as Hr.
    pose proof (Z.div_mod n_sub 2 ltac:(lia)) as Hdm.
    destruct (Z.eqb_spec (n_sub mod 2) 0) as [Heven | Hodd].
    + rewrite Z.shiftr_div_pow2 by lia. change (2 ^ 1) with 2.
      assert (Hq : n_sub / 2 <> 0) by lia.
      assert (Hlog' : Z.log2 (Z.abs (n_sub / 2)) < Z.of_nat fuel).
      { assert (Habs : Z.abs n_sub = 2 * Z.abs (n_sub / 2)) by lia.
        rewrite Habs, Z.log2_double in Hlog by lia. lia. }
      destruct (IH (n_sub / 2) (k + 1) Hq Hlog') as (m & j & Hrun & Hj & Hm & Heq).
      exists m, (j + 1). rewrite Hrun. split; [do 2 f_equal; lia |].
      split; [lia |]. split; [exact Hm |].
      rewrite Z.pow_add_r, Z.pow_1_r by lia. lia.
    + exists n_sub, 0. rewrite Z.add_0_r. split; [reflexivity |].
      split; [lia |]. split; [lia |]. rewrite Z.pow_0_r. lia.
Qed.

Lemma sqrt_1_prime n x :
  Z.prime n -> 0 <= x < n -> (x * x) mod n = 1 -> x = 1 \/ x = n - 1.
Proof.
  intros Hn Hx Hsq. pose proof (Z.prime_ge_2 n Hn) as Hn2.
  assert (Hdiv : (n | (x - 1) * (x + 1))).
  { apply Z.mod_divide; [lia |].
    replace ((x - 1) * (x + 1)) with (x * x - 1) by ring.
    rewrite Zminus_mod, Hsq, Z.mod_1_l by lia. reflexivity. }
  apply Z.divide_prime_mul in Hdiv; [| exact Hn].
  destruct Hdiv as [[c Hc] | [c Hc]].
  - left. assert (c = 0) by nia. lia.
  - right. assert (c = 1) by nia. lia.
Qed.

Lemma py_pow3_square x n : n <> 0 -> py_pow3 x 2 n = Ok ((x * x) mod n).
Proof.
  intros Hn. rewrite py_pow3_spec by lia. do 2 f_equal. ring.
Qed.

Lemma check_loop_prime n : Z.prime n -> forall j x,
  0 <= x < n -> x <> 1 -> x ^ (2 ^ (Z.of_nat j + 1)) mod n = 1 ->
  check_loop j x n = Ok true.
Proof.
  intros Hn. pose proof (Z.prime_ge_2 n Hn) as Hn2.
  induction j as [| j IH]; intros x Hx Hx1 Hpow.
  - cbn [check_loop]. change (2 ^ (Z.of_nat 0 + 1)) with 2 in Hpow.
    replace (x ^ 2) with (x * x) in Hpow by ring.
    destruct (sqrt_1_prime n x Hn Hx Hpow) as [-> | ->]; [contradiction |].
    rewrite Z.eqb_refl. reflexivity.
  - cbn [check_loop]. destruct (Z.eqb_spec x (n - 1)) as [_ | Hne]; [reflexivity |].
    rewrite py_pow3_square by lia. simpl.
    pose proof (Z.mod_pos_bound (x * x) n ltac:(lia)) as Hb.
    apply IH; [exact Hb | |].
    + intros Hsq. destruct (sqrt_1_prime n x Hn Hx Hsq); contradiction.
    + rewrite Z.mod_pow_l.
      assert (E : (x * x) ^ 2 ^ (Z.of_nat j + 1)
                  = x ^ 2 ^ (Z.of_nat (S j) + 1)).
      { replace (x * x) with (x ^ 2) by ring.
        rewrite <- Z.pow_mul_r by (try apply Z.pow_nonneg; lia). f_equal.
        rewrite Nat2Z.inj_succ.
        replace (Z.succ (Z.of_nat j) + 1) with (1 + (Z.of_nat j + 1)) by lia.
        rewrite (Z.pow_add_r 2 1) by lia. reflexivity. }
      rewrite E. exact Hpow.
Qed.

Lemma check_prime n k m a :
  Z.prime n -> 1 <= k -> 0 < m -> n - 1 = 2 ^ k * m -> 2 <= a <= n - 1 ->
  check a k m n = Ok true.
Proof.
  intros Hn Hk Hm Hsplit Ha. pose proof (Z.prime_ge_2 n Hn) as Hn2.
  unfold check. rewrite py_pow3_spec by lia. simpl.
  destruct (Z.eqb_spec (a ^ m mod n) 1) as [_ | Hne]; [reflexivity |].
  apply check_loop_prime; [exact Hn | apply Z.mod_pos_bound; lia | exact Hne |].
  rewrite Z2Nat.id by lia. replace (k - 1 + 1) with k by lia.
  rewrite Z.mod_pow_l, <- Z.pow_mul_r by (try apply Z.pow_nonneg; lia).
  rewrite (Z.mul_comm m), <- Hsplit.
  apply Z.fermat_nz; [exact Hn |]. rewrite Z.mod_small by lia. lia.
Qed.

Lemma rounds_pass n k n_sub :
  3 <= n -> (forall a, 2 <= a <= n - 1 -> check a k n_sub n = Ok true) ->
  forall i g, rounds i n k n_sub g = Some (Ok true, skip i g).
Proof.
  intros Hn Hall. induction i as [| i IH]; intros g.
  - cbn [rounds ret]. rewrite skip_0. reflexivity.
  - cbn [rounds]. unfold bind at 1.
    destruct (randint_range 2 (n - 1) g ltac:(lia)) as (a & Hdraw & Ha).
    rewrite Hdraw. unfold bind, lift.
    rewrite (Hall a Ha). cbn [negb]. rewrite IH, skip_skip. reflexivity.
Qed.

Lemma odd_prime_split n fuel :
  Z.prime n -> n <> 2 -> (Z.to_nat (Z.log2 n) < fuel)%nat ->
  exists m k, split_loop fuel (n - 1) 0 = Some (m, k)
              /\ 1 <= k /\ 0 < m /\ n - 1 = 2 ^ k * m /\ 3 <= n.
Proof.
  intros Hn Hn2 Hfuel. pose proof (Z.prime_ge_2 n Hn) as Hge.
  assert (Hodd : n mod 2 = 1).
  { pose proof (Z.mod_pos_bound n 2 ltac:(lia)).
    destruct (Z.eq_dec (n mod 2) 0) as [Hz | Hnz]; [| lia].
    exfalso. destruct Hn as [_ Hn]. apply (Hn 2); [lia |].
    apply Z.mod_divide; [lia | exact Hz]. }
  assert (Hlog : Z.log2 (Z.abs (n - 1)) < Z.of_nat fuel).
  { rewrite Z.abs_eq by lia.
    pose proof (Z.log2_le_mono (n - 1) n ltac:(lia)).
    pose proof (Z.log2_nonneg n). lia. }
  destruct (split_loop_spec fuel (n - 1) 0 ltac:(lia) Hlog) as (m & j & Hrun & Hj & Hm & Heq).
  exists m, j. rewrite Z.add_0_l in Hrun. split; [exact Hrun |].
  assert (Hj1 : j <> 0).
  { intros ->. rewrite Z.pow_0_r in Heq.
    pose proof (Z.div_mod n 2 ltac:(lia)). pose proof (Z.div_mod m 2 ltac:(lia)). lia. }
  assert (Hpow : 0 < 2 ^ j) by (apply Z.pow_pos_nonneg; lia).
  repeat split; (lia || nia).
Qed.

(** X18: [miller_rabin] never rejects an odd prime: for every prime
    [n <> 2], every round count and every tape it returns [True] after
    [t] draws (the halving loop needs at most [log2 n + 1] tests). *)
Theorem miller_rabin_accepts_primes (n t : Z) (fuel : nat) (g : rng) :
  Z.prime n -> n <> 2 -> (Z.to_nat (Z.log2 n) < fuel)%nat ->
  miller_rabin fuel n t g = Some (Ok true, skip (Z.to_nat t) g).
Proof.
  intros Hn Hn2 Hfuel.
  destruct (odd_prime_split n fuel Hn Hn2 Hfuel) as (m & k & Hrun & Hk & Hm & Heq & Hn3).
  unfold miller_rabin. rewrite Hrun.
  apply rounds_pass; [exact Hn3 |].
  intros a Ha. apply check_prime; assumption.
Qed.

Lemma miller_rabin_accepts_primes_witness :
  miller_rabin 6 61 10 (mkRng textbook_tape 0)
  = Some (Ok true, skip (Z.to_nat 10) (mkRng textbook_tape 0)).
Proof.
  apply (miller_rabin_accepts_primes 61 10 6 (mkRng textbook_tape 0)).
  - exact prime_61.
  - lia.
  - vm_compute. lia.
Defined.

Lemma miller_rabin_mono fuel fuel' n t g r :
  miller_rabin fuel n t g = Some r -> (fuel <= fuel')%nat ->
  miller_rabin fuel' n t g = Some r.
Proof.
  unfold miller_rabin. intros Hrun Hle.
  destruct (split_loop fuel (n - 1) 0) as [[m k] |] eqn:Hsplit;
    [| discriminate].
  rewrite (split_loop_mono fuel _ _ _ fuel' Hsplit Hle). exact Hrun.
Qed.

(** On 2 the test draws from the empty range [2 .. 1]. *)
Lemma miller_rabin_two fuel t g :
  miller_rabin (S fuel) 2 t g =
  match Z.to_nat t with
  | O => Some (Ok true, g)
  | S _ => Some (Raised ValueError, g)
  end.
Proof.
  unfold miller_rabin. cbn [split_loop]. change (2 - 1) with 1.
  change (1 mod 2 =? 0) with false. cbn iota.
  destruct (Z.to_nat t); reflexivity.
Qed.

(** X19: an answer [False] is definite: whenever [miller_rabin] returns
    [False], [n] is not prime. *)
Theorem miller_rabin_false_composite (n t : Z) (fuel : nat) (g g' : rng) :
  miller_rabin fuel n t g = Some (Ok false, g') -> ~ Z.prime n.
Proof.
  intros Hrun Hprime.
  destruct (Z.eq_dec n 2) as [-> | Hn2].
  - destruct fuel as [| fuel]; [discriminate |].
    rewrite miller_rabin_two in Hrun. destruct (Z.to_nat t); discriminate.
  - set (fuel' := (fuel + S (Z.to_nat (Z.log2 n)))%nat).
    pose proof (miller_rabin_mono fuel fuel' n t g _ Hrun ltac:(lia)) as H1.
    destruct (odd_prime_split n fuel' Hprime Hn2 ltac:(unfold fuel'; lia))
      as (m & k & Hsplit & Hk & Hm & Heq & Hn3).
    unfold miller_rabin in H1. rewrite Hsplit in H1.
    rewrite (rounds_pass n k m Hn3) in H1; [discriminate |].
    intros a Ha. apply check_prime; assumption.
Qed.

Lemma miller_rabin_false_composite_witness : ~ Z.prime 561.
Proof.
  apply (miller_rabin_false_composite 561 10 6
           (mkRng textbook_tape 0) (mkRng textbook_tape 1)).
  vm_compute. reflexivity.
Defined.

(** The witness [n - 1] passes for every odd [n]. *)
Lemma check_minus_one n k m :
  3 <= n -> 0 < m -> m mod 2 = 1 -> check (n - 1) k m n = Ok true.
Proof.
  intros Hn Hm Hodd. unfold check. rewrite py_pow3_spec by lia. simpl.
  assert (Hx : (n - 1) ^ m mod n = n - 1).
  { assert (E1 : (n - 1) mod n = (-1) mod n).
    { replace (n - 1) with (-1 + 1 * n) by lia. apply Z.mod_add. lia. }
    assert (E2 : (-1) ^ m = -1).
    { change (-1) with (Z.opp 1). rewrite Z.pow_opp_odd.
      - rewrite Z.pow_1_l by lia. reflexivity.
      - exists (m / 2). pose proof (Z.div_mod m 2 ltac:(lia)). lia. }
    rewrite <- Z.mod_pow_l, E1, Z.mod_pow_l, E2, <- E1.
    apply Z.mod_small. lia. }
  rewrite Hx. destruct (Z.eqb_spec (n - 1) 1); [lia |].
  destruct (Z.to_nat (k - 1)); cbn [check_loop]; rewrite Z.eqb_refl;
    reflexivity.
Qed.

Lemma rounds_minus_one n k m :
  3 <= n -> check (n - 1) k m n = Ok true ->
  forall i g, (forall j, tape g j = n - 1) ->
  rounds i n k m g = Some (Ok true, skip i g).
Proof.
  intros Hn Hcheck. induction i as [| i IH]; intros g Htape.
  - cbn [rounds ret]. rewrite skip_0. reflexivity.
  - cbn [rounds]. unfold bind at 1.
    rewrite (randint_any 2 (n - 1) g (n - 1)) by (try apply Htape; lia).
    unfold bind, lift. rewrite Hcheck. cbn [negb].
    rewrite IH by exact Htape. rewrite skip_skip. reflexivity.
Qed.

(** X20: an answer [True] is not definite: on every odd [n >= 3], prime
    or not, a run in which every witness drawn is [n - 1] returns
    [True]. *)
Theorem miller_rabin_fooled (n t : Z) (fuel : nat) (g : rng) :
  3 <= n -> n mod 2 = 1 -> (forall j, tape g j = n - 1) ->
  (Z.to_nat (Z.log2 n) < fuel)%nat ->
  miller_rabin fuel n t g = Some (Ok true, skip (Z.to_nat t) g).
Proof.
  intros Hn Hodd Htape Hfuel.
  assert (Hlog : Z.log2 (Z.abs (n - 1)) < Z.of_nat fuel).
  { rewrite Z.abs_eq by lia.
    pose proof (Z.log2_le_mono (n - 1) n ltac:(lia)).
    pose proof (Z.log2_nonneg n). lia. }
  destruct (split_loop_spec fuel (n - 1) 0 ltac:(lia) Hlog)
    as (m & j & Hrun & Hj & Hm & Heq).
  unfold miller_rabin. rewrite Hrun.
  assert (Hpow : 0 < 2 ^ j) by (apply Z.pow_pos_nonneg; lia).
  apply rounds_minus_one; [exact Hn | | exact Htape].
  apply check_minus_one; [exact Hn | nia | exact Hm].
Qed.

Lemma miller_rabin_fooled_witness :
  miller_rabin 10 561 10 (mkRng (fun _ => 560) 0)
  = Some (Ok true, skip (Z.to_nat 10) (mkRng (fun _ => 560) 0)).
Proof.
  apply (miller_rabin_fooled 561 10 10 (mkRng (fun _ => 560) 0)).
  - lia.
  - reflexivity.
  - intros j. reflexivity.
  - vm_compute. lia.
Defined.

Lemma split_loop_result fuel : forall n_sub k m k',
  split_loop fuel n_sub k = Some (m, k') ->
  exists j, 0 <= j /\ k' = k + j /\ n_sub = 2 ^ j * m /\ m mod 2 = 1.
Proof.
  induction fuel as [| fuel IH]; intros n_sub k m k' Hrun; [discriminate |].
  cbn [split_loop] in Hrun.
  pose proof (Z.mod_pos_bound n_sub 2 ltac:(lia)) as Hr.
  pose proof (Z.div_mod n_sub 2 ltac:(lia)) as Hdm.
  destruct (Z.eqb_spec (n_sub mod 2) 0) as [Heven | Hodd].
  - rewrite Z.shiftr_div_pow2 in Hrun by lia. change (2 ^ 1) with 2 in Hrun.
    destruct (IH _ _ _ _ Hrun) as (j & Hj & Hk & Heq & Hm).
    exists (j + 1). split; [lia |]. split; [lia |]. split; [| exact Hm].
    rewrite Z.pow_add_r, Z.pow_1_r by lia. lia.
  - injection Hrun as <- <-. exists 0. rewrite Z.pow_0_r. lia.
Qed.

Lemma check_loop_total n : n <> 0 -> forall j x, exists b, check_loop j x n = Ok b.
Proof.
  intros Hn. induction j as [| j IH]; intros x; cbn [check_loop].
  - eexists. reflexivity.
  - destruct (x =? n - 1); [eexists; reflexivity |].
    rewrite py_pow3_spec by lia. simpl. apply IH.
Qed.

Lemma check_total a k m n :
  n <> 0 -> 0 <= m -> exists b, check a k m n = Ok b.
Proof.
  intros Hn Hm. unfold check. rewrite py_pow3_spec by assumption. simpl.
  destruct (_ =? 1); [eexists; reflexivity | apply check_loop_total; exact Hn].
Qed.

(** What a run of the rounds does to the random source. *)
Lemma rounds_draws n k m : forall i g r g',
  rounds i n k m g = Some (r, g') ->
  tape g' = tape g
  /\ (cursor g <= cursor g' <= cursor g + i)%nat
  /\ (r = Ok true -> cursor g' = (cursor g + i)%nat)
  /\ (r = Ok false -> (cursor g < cursor g')%nat).
Proof.
  induction i as [| i IH]; intros g r g' Hrun.
  - cbn [rounds ret] in Hrun. injection Hrun as <- <-.
    repeat split; try lia. discriminate.
  - cbn [rounds] in Hrun. unfold bind at 1 in Hrun. unfold randint in Hrun.
    destruct (n - 1 <? 2).
    + injection Hrun as <- <-. repeat split; try lia; discriminate.
    + unfold bind, lift in Hrun.
      destruct (check _ k m n) as [[|] | e].
      * cbn [negb] in Hrun. apply IH in Hrun.
        destruct Hrun as (Ht & Hc & Htrue & Hfalse). cbn [skip tape cursor] in *.
        repeat split; try assumption; try lia; intros E;
          try specialize (Htrue E); try specialize (Hfalse E); lia.
      * cbn [negb ret] in Hrun. injection Hrun as <- <-.
        cbn [skip tape cursor]. repeat split; try lia. discriminate.
      * injection Hrun as <- <-. cbn [skip tape cursor].
        repeat split; try lia; discriminate.
Qed.

Lemma miller_rabin_run fuel n t g r :
  miller_rabin fuel n t g = Some r ->
  exists m k j,
    0 <= j /\ n - 1 = 2 ^ j * m /\ m mod 2 = 1
    /\ rounds (Z.to_nat t) n k m g = Some r.
Proof.
  unfold miller_rabin. intros Hrun.
  destruct (split_loop fuel (n - 1) 0) as [[m k] |] eqn:Hsplit;
    [| discriminate].
  destruct (split_loop_result _ _ _ _ _ Hsplit) as (j & Hj & _ & Heq & Hm).
  exists m, k, j. repeat split; assumption.
Qed.

(** X21: what [miller_rabin] asks of the random source: at most [t]
    draws, exactly [t] when it answers [True], at least one when it
    answers [False]; the tape itself is untouched. *)
Theorem miller_rabin_draws (n t : Z) (fuel : nat) (g g' : rng) (r : result bool) :
  miller_rabin fuel n t g = Some (r, g') ->
  tape g' = tape g
  /\ (cursor g <= cursor g' <= cursor g + Z.to_nat t)%nat
  /\ (r = Ok true -> cursor g' = (cursor g + Z.to_nat t)%nat)
  /\ (r = Ok false -> (cursor g < cursor g')%nat).
Proof.
  intros Hrun.
  destruct (miller_rabin_run _ _ _ _ _ Hrun) as (m & k & j & _ & _ & _ & Hr).
  apply rounds_draws with (1 := Hr).
Qed.

Lemma miller_rabin_draws_witness :
  tape (mkRng textbook_tape 1) = tape (mkRng textbook_tape 0)
  /\ (cursor (mkRng textbook_tape 0) <= cursor (mkRng textbook_tape 1)
       <= cursor (mkRng textbook_tape 0) + Z.to_nat 10)%nat
  /\ (Ok false = Ok true ->
       cursor (mkRng textbook_tape 1)
       = (cursor (mkRng textbook_tape 0) + Z.to_nat 10)%nat)
  /\ (@Ok bool false = Ok false ->
       (cursor (mkRng textbook_tape 0) < cursor (mkRng textbook_tape 1))%nat).
Proof.
  apply (miller_rabin_draws 561 10 6 (mkRng textbook_tape 0)
           (mkRng textbook_tape 1) (Ok false)).
  vm_compute. reflexivity.
Defined.

Lemma rounds_total n k m :
  3 <= n -> 0 <= m -> forall i g, exists b g', rounds i n k m g = Some (Ok b, g').
Proof.
  intros Hn Hm. induction i as [| i IH]; intros g.
  - eexists _, _. reflexivity.
  - cbn [rounds]. unfold bind at 1.
    destruct (randint_range 2 (n - 1) g ltac:(lia)) as (a & Hdraw & Ha).
    rewrite Hdraw. unfold bind, lift.
    destruct (check_total a k m n ltac:(lia) Hm) as [b ->].
    destruct b; cbn [negb]; [apply IH | eexists _, _; reflexivity].
Qed.

Lemma rounds_no_error n k m j i g r g' :
  3 <= n -> 0 <= j -> n - 1 = 2 ^ j * m ->
  rounds i n k m g = Some (r, g') -> exists b, r = Ok b.
Proof.
  intros Hn Hj Heq Hrun.
  assert (Hpow : 0 < 2 ^ j) by (apply Z.pow_pos_nonneg; lia).
  destruct (rounds_total n k m Hn ltac:(nia) i g) as (b & g0 & Hrun').
  rewrite Hrun' in Hrun. injection Hrun as <- _. exists b. reflexivity.
Qed.

(** X22: on [n >= 3] [miller_rabin] raises nothing: whatever it returns
    is [True] or [False]. *)
Theorem miller_rabin_no_error (n t : Z) (fuel : nat) (g g' : rng) (r : result bool) :
  3 <= n -> miller_rabin fuel n t g = Some (r, g') -> exists b, r = Ok b.
Proof.
  intros Hn Hrun.
  destruct (miller_rabin_run _ _ _ _ _ Hrun) as (m & k & j & Hj & Heq & _ & Hr).
  apply (rounds_no_error n k m j _ _ _ _ Hn Hj Heq Hr).
Qed.

Lemma miller_rabin_no_error_witness : exists b, Ok false = Ok b.
Proof.
  apply (miller_rabin_no_error 561 10 6 (mkRng textbook_tape 0)
           (mkRng textbook_tape 1) (Ok false)).
  - lia.
  - vm_compute. reflexivity.
Defined.

(** X23: with a round count [t <= 0] no witness is drawn and every
    [n <> 1], composite or not, is answered [True]. *)
Theorem miller_rabin_zero_rounds (n t : Z) (fuel : nat) (g : rng) :
  n <> 1 -> t <= 0 -> (Z.to_nat (Z.log2 (Z.abs (n - 1))) < fuel)%nat ->
  miller_rabin fuel n t g = Some (Ok true, g).
Proof.
  intros Hn Ht Hfuel.
  assert (Hlog : Z.log2 (Z.abs (n - 1)) < Z.of_nat fuel).
  { pose proof (Z.log2_nonneg (Z.abs (n - 1))). lia. }
  destruct (split_loop_spec fuel (n - 1) 0 ltac:(lia) Hlog)
    as (m & j & Hrun & _).
  unfold miller_rabin. rewrite Hrun.
  replace (Z.to_nat t) with O by lia. reflexivity.
Qed.

Lemma miller_rabin_zero_rounds_witness :
  miller_rabin 5 15 0 (mkRng textbook_tape 0)
  = Some (Ok true, mkRng textbook_tape 0).
Proof.
  apply (miller_rabin_zero_rounds 15 0 5 (mkRng textbook_tape 0)).
  - lia.
  - lia.
  - vm_compute. lia.
Defined.

(** X24: below 3 the test gives no answer when [t > 0]: on [n = 1] the
    halving loop never ends, on 2 and on every [n <= 0] the first
    [randint(2, n - 1)] raises [ValueError] on its empty range. *)
Theorem miller_rabin_small (n t : Z) (fuel : nat) (g : rng) :
  n <= 2 -> 0 < t ->
  (n = 1 -> miller_rabin fuel n t g = None)
  /\ (n <> 1 -> (Z.to_nat (Z.log2 (Z.abs (n - 1))) < fuel)%nat ->
      miller_rabin fuel n t g = Some (Raised ValueError, g)).
Proof.
  intros Hn Ht. split.
  - intros ->. apply miller_rabin_one_diverges.
  - intros Hn1 Hfuel.
    assert (Hlog : Z.log2 (Z.abs (n - 1)) < Z.of_nat fuel).
    { pose proof (Z.log2_nonneg (Z.abs (n - 1))). lia. }
    destruct (split_loop_spec fuel (n - 1) 0 ltac:(lia) Hlog)
      as (m & j & Hrun & _).
    unfold miller_rabin. rewrite Hrun.
    destruct (Z.to_nat t) as [| i] eqn:Hi; [lia |].
    cbn [rounds]. unfold bind, randint.
    destruct (Z.ltb_spec (n - 1) 2); [reflexivity | lia].
Qed.

Lemma miller_rabin_small_witness :
  (2 = 1 -> miller_rabin 5 2 10 (mkRng textbook_tape 0) = None)
  /\ (2 <> 1 -> (Z.to_nat (Z.log2 (Z.abs (2 - 1))) < 5)%nat ->
      miller_rabin 5 2 10 (mkRng textbook_tape 0)
      = Some (Raised ValueError, mkRng textbook_tape 0)).
Proof.
  apply (miller_rabin_small 2 10 5 (mkRng textbook_tape 0)); lia.
Defined.

(* ===================================================================== *)
(** ** More on key generation                                          *)
(* ===================================================================== *)

Lemma odd_adjust n0 :
  0 <= n0 < 2 ^ 512 ->
  let n := if Z.land n0 1 =? 0 then n0 + 1 else n0 in
  1 <= n < 2 ^ 512 /\ n mod 2 = 1 /\ (n = 1 <-> n0 = 0 \/ n0 = 1).
Proof.
  intros Hn0. cbv zeta. rewrite land_1_mod2.
  pose proof (Z.mod_pos_bound n0 2 ltac:(lia)) as Hr.
  pose proof (Z.div_mod n0 2 ltac:(lia)) as Hdm.
  assert (Heven : 2 ^ 512 = 2 * 2 ^ 511) by reflexivity.
  destruct (Z.eqb_spec (n0 mod 2) 0) as [Hz | Hnz].
  - split; [lia |]. split; [| lia].
    replace (n0 + 1) with (1 + (n0 / 2) * 2) by lia.
    rewrite Z.mod_add by lia. reflexivity.
  - split; [lia |]. split; lia.
Qed.

Lemma get_prime_run (fuel : nat) (g g' : rng) (r : result candidate) :
  get_prime fuel g = Some (r, g') ->
  tape g' = tape g
  /\ (cursor g < cursor g' <= cursor g + 11)%nat
  /\ exists c, r = Ok c /\ candidate_ok c.
Proof.
  unfold get_prime, bind, getrandbits. intros Hrun.
  set (n0 := tape g (cursor g) mod 2 ^ 512) in *.
  pose proof (Z.mod_pos_bound (tape g (cursor g)) (2 ^ 512) ltac:(lia)) as Hn0.
  fold n0 in Hn0.
  destruct (odd_adjust n0 Hn0) as (Hrange & Hodd & Hone).
  set (n := if Z.land n0 1 =? 0 then n0 + 1 else n0) in *.
  destruct (miller_rabin fuel n 10 (skip 1 g)) as [[rb g1] |] eqn:Hmr;
    [| discriminate].
  destruct (miller_rabin_run _ _ _ _ _ Hmr) as (m & k & j & Hj & Heq & _ & Hr).
  pose proof (rounds_draws _ _ _ _ _ _ _ Hr) as (Ht & Hc & _ & _).
  cbn [skip tape cursor] in Ht, Hc. change (Z.to_nat 10) with 10%nat in Hc.
  assert (Hn3 : 3 <= n).
  { destruct (Z.eq_dec n 1) as [H1 | H1].
    - rewrite H1, miller_rabin_one_diverges in Hmr. discriminate.
    - pose proof (Z.div_mod n 2 ltac:(lia)). lia. }
  destruct (rounds_no_error n k m j _ _ _ _ Hn3 Hj Heq Hr) as [b ->].
  destruct b; cbn [negb ret] in Hrun; injection Hrun as <- <-.
  - split; [exact Ht |]. split; [lia |].
    exists (PyInt n). split; [reflexivity |]. right. exists n.
    split; [reflexivity |]. split; [lia | exact Hodd].
  - split; [exact Ht |]. split; [lia |].
    exists PyFalse. split; [reflexivity |]. left. reflexivity.
Qed.

(** X25: whenever [get_prime] returns, it raised nothing, made between 1
    and 11 draws, and handed over either [False] or an odd number of
    [3 .. 2 ^ 512 - 1], which [not p] takes as true-valued: the number may
    have fewer than 512 bits. *)
Theorem get_prime_spec (fuel : nat) (g g' : rng) (r : result candidate) :
  get_prime fuel g = Some (r, g') ->
  tape g' = tape g
  /\ (cursor g < cursor g' <= cursor g + 11)%nat
  /\ exists c, r = Ok c
               /\ (c = PyFalse
                   \/ exists n, c = PyInt n /\ py_not c = false
                                /\ 3 <= n < 2 ^ 512 /\ n mod 2 = 1).
Proof.
  intros Hrun.
  destruct (get_prime_run _ _ _ _ Hrun) as (Ht & Hc & c & -> & Hok).
  split; [exact Ht |]. split; [exact Hc |].
  exists c. split; [reflexivity |].
  destruct Hok as [-> | (n & -> & Hrange & Hodd)]; [left; reflexivity |].
  right. exists n. split; [reflexivity |]. split.
  - cbn [py_not]. destruct (Z.eqb_spec n 0); [lia | reflexivity].
  - split; assumption.
Qed.

Lemma get_prime_spec_witness :
  tape (mkRng textbook_tape 11) = tape (mkRng textbook_tape 0)
  /\ (cursor (mkRng textbook_tape 0) < cursor (mkRng textbook_tape 11)
       <= cursor (mkRng textbook_tape 0) + 11)%nat
  /\ exists c, Ok (PyInt 61) = Ok c
               /\ (c = PyFalse
                   \/ exists n, c = PyInt n /\ py_not c = false
                                /\ 3 <= n < 2 ^ 512 /\ n mod 2 = 1).
Proof.
  apply (get_prime_spec 5 (mkRng textbook_tape 0) (mkRng textbook_tape 11)
           (Ok (PyInt 61))).
  vm_compute. reflexivity.
Defined.

(** X26: when [getrandbits(512)] draws 0 or 1 the candidate is 1, the
    halving loop of [miller_rabin] never ends and [get_prime] returns
    nothing. *)
Theorem get_prime_hangs (fuel : nat) (g : rng) :
  tape g (cursor g) mod 2 ^ 512 = 0 \/ tape g (cursor g) mod 2 ^ 512 = 1 ->
  get_prime fuel g = None.
Proof.
  intros Hraw. unfold get_prime, bind, getrandbits.
  destruct Hraw as [-> | ->]; cbn [Z.land Z.eqb Z.add Pos.add];
    rewrite miller_rabin_one_diverges; reflexivity.
Qed.

Lemma get_prime_hangs_witness :
  get_prime 100 (mkRng (fun _ => 0) 0) = None.
Proof.
  apply (get_prime_hangs 100 (mkRng (fun _ => 0) 0)).
  left. reflexivity.
Defined.







(* ===================================================================== *)
(** ** Encryption of lines                                             *)
(* ===================================================================== *)

(** X3: with a valid key pair, decrypting the encryption of any integer [m],
    also one outside [0, n), gives [m mod n]: a message of [n] or more is
    not recovered. *)
Theorem rsa_any_message (p q n e d m : Z) :
  Z.prime p -> Z.prime q -> p <> q -> n = p * q ->
  0 <= e -> 0 <= d -> (e * d) mod ((p - 1) * (q - 1)) = 1 ->
  (let? c := rsa n e m in rsa n d c) = Ok (m mod n).
Proof.
  intros Hp Hq Hpq Hn He Hd Hed.
  destruct (rsa_exponents_positive p q e d) as [Hepos Hdpos]; try assumption.
  pose proof (Z.prime_ge_2 p Hp). pose proof (Z.prime_ge_2 q Hq).
  rewrite rsa_twice by (lia || nia). f_equal.
  rewrite Hn. apply rsa_exponents; assumption.
Qed.

Lemma rsa_any_message_witness :
  (let? c := rsa 3233 17 3298 in rsa 3233 2753 c) = Ok (3298 mod 3233).
Proof.
  apply (rsa_any_message 61 53 3233 17 2753 3298).
  - exact prime_61.
  - exact prime_53.
  - lia.
  - reflexivity.
  - lia.
  - lia.
  - reflexivity.
Defined.

(** X4: [rsa] is multiplicative: for a positive exponent and a nonzero
    modulus the encryption of a product is the product of the encryptions
    modulo [n]. *)
Theorem rsa_multiplicative (n e m1 m2 : Z) :
  n <> 0 -> 0 < e ->
  rsa n e (m1 * m2) =
  (let? c1 := rsa n e m1 in let? c2 := rsa n e m2 in Ok ((c1 * c2) mod n)).
Proof.
  intros Hn He. unfold rsa. rewrite !mod_exp_55_pos by assumption. simpl.
  f_equal. rewrite Z.pow_mul_l. apply Z.mul_mod. exact Hn.
Qed.

Lemma rsa_multiplicative_witness :
  rsa 3233 17 (65 * 2) =
  (let? c1 := rsa 3233 17 65 in let? c2 := rsa 3233 17 2 in
   Ok ((c1 * c2) mod 3233)).
Proof.
  apply (rsa_multiplicative 3233 17 65 2); lia.
Defined.





Lemma lsb_value_top ds :
  Forall is_lower ds -> ds <> [] -> last ds "b"%char <> "a"%char ->
  26 ^ (Z.of_nat (List.length ds) - 1) <= lsb_value 26 (map digit ds).
Proof.
  induction 1 as [| c rest Hc Hrest IH]; intros Hne Hlast; [contradiction |].
  cbn [map lsb_value List.length]. unfold is_lower in Hc.
  destruct rest as [| c' rest'].
  - simpl in *.
    assert (ord c <> 97) by (intros E; apply Hlast, ord_inj; exact E).
    unfold digit. lia.
  - specialize (IH ltac:(discriminate) Hlast).
    replace (Z.of_nat (S (List.length (c' :: rest'))) - 1)
      with (Z.succ (Z.of_nat (List.length (c' :: rest')) - 1)) by lia.
    rewrite Z.pow_succ_r by (cbn [List.length]; lia).
    unfold digit at 1. lia.
Qed.

(** X6: for [n > 0] the string that [decode] returns has as many letters as
    [n] has digits in base 26: [26 ^ (len - 1) <= n < 26 ^ len]. *)
Theorem decode_length (n : Z) :
  0 < n ->
  exists s,
    (forall fuel, (String.length s < fuel)%nat ->
       decode fuel n 26 = Some (Ok (DStr s)))
    /\ 26 ^ (Z.of_nat (String.length s) - 1) <= n
       < 26 ^ Z.of_nat (String.length s).
Proof.
  intros Hn.
  destruct (digits_exist n Hn) as (ds & Hds & Hne & Hlast & Hval).
  exists (string_of_list_ascii (rev ds)).
  assert (Hlen : String.length (string_of_list_ascii (rev ds)) = List.length ds).
  { rewrite <- string_length_list, list_ascii_of_string_of_list_ascii.
    apply length_rev. }
  rewrite Hlen. split.
  - intros fuel Hfuel. unfold decode.
    destruct (Z.eqb_spec n 0); [lia |].
    rewrite <- Hval, decode_loop_digits by assumption. reflexivity.
  - rewrite <- Hval. split.
    + apply lsb_value_top; assumption.
    + pose proof (lsb_value_bound (map digit ds)) as Hb.
      rewrite length_map in Hb. apply Hb.
      apply Forall_map. eapply Forall_impl; [| exact Hds].
      unfold is_lower, digit. intros c Hc. lia.
Qed.

Lemma decode_length_witness :
  exists s,
    (forall fuel, (String.length s < fuel)%nat ->
       decode fuel 2398 26 = Some (Ok (DStr s)))
    /\ 26 ^ (Z.of_nat (String.length s) - 1) <= 2398
       < 26 ^ Z.of_nat (String.length s).
Proof.
  apply (decode_length 2398). lia.
Defined.

(** X7: a line whose letters are all [a] or [A], or that has no letter,
    is written as 0 and read back as the list [[0]], not as a string. *)
Theorem line_without_digits (p q n e d : Z) (line : string) :
  n <> 0 -> p * q <> 0 -> 0 < e -> 0 < d ->
  Forall (fun c => lower_char c = "a"%char)
         (list_ascii_of_string (letters_of line)) ->
  encrypt_line n e line = Ok 0
  /\ forall fuel, decrypt_line fuel p q d 0 = Some (Ok (DList [0])).
Proof.
  intros Hn Hpq He Hd Hall.
  assert (Henc : encode (letters_of line) 26 = 0).
  { rewrite encode_digits.
    induction Hall as [| c l Hc Hl IH]; [reflexivity |].
    cbn [map rev]. rewrite lsb_value_app, IH, Hc.
    cbn [map lsb_value]. change (digit "a") with 0. lia. }
  assert (Hzero : forall m ex, m <> 0 -> 0 < ex -> rsa m ex 0 = Ok 0).
  { intros m ex Hm Hex. unfold rsa. rewrite mod_exp_55_pos by assumption.
    rewrite Z.pow_0_l, Z.mod_0_l by lia. reflexivity. }
  split.
  - unfold encrypt_line. rewrite Henc. apply Hzero; assumption.
  - intros fuel. unfold decrypt_line. rewrite Hzero by assumption.
    reflexivity.
Qed.

Lemma line_without_digits_witness :
  encrypt_line 3233 17 "A a!" = Ok 0
  /\ forall fuel, decrypt_line fuel 61 53 2753 0 = Some (Ok (DList [0])).
Proof.
  apply (line_without_digits 61 53 3233 17 2753 "A a!"); try lia.
  repeat constructor.
Defined.
